(** * serverless-env-local: the environment-file store of [src/index.js]

    A shallow embedding of the plug-in class [ServerlessEnvLocal] and the
    properties of its local environment-file store: how a function is mapped
    to a file name, what is written after a deploy, what is read back and
    injected before a local invocation.

    Conventions of the embedding.
    - A JavaScript value that is either [undefined] or a string is an
      [option string]; the empty string is falsy, every other string truthy.
    - A JavaScript object iterated by the code ([resources], the declared
      [functions]) is an association list in iteration order; an object that
      is only indexed ([custom], [process.env], the file system) is a [gmap].
      Where the code indexes the declared functions by a name it is given,
      the properties every object inherits from [Object.prototype] are
      modelled beside the own ones.
    - Code that throws or touches the file system, the log or [process.env]
      is a function from a [World] to a [World] and a [result]. *)

From Stdlib Require Import Ascii String DecimalString.
From stdpp Require Import base option list strings gmap.

Set Default Proof Using "Type".

(** ** Characters and strings *)

Module Str.

Definition newline : ascii := "010"%char.
Definition backslash : ascii := "\"%char.
Definition slash : ascii := "/"%char.
Definition equals : ascii := "="%char.
Definition underscore : ascii := "_"%char.

(** [c] occurs in [s]. *)
Fixpoint mem (c : ascii) (s : string) : bool :=
  match s with
  | EmptyString => false
  | String d r => if Ascii.eqb d c then true else mem c r
  end.

(** The text up to the first [c] and the text after it. *)
Fixpoint cut (c : ascii) (s : string) : option (string * string) :=
  match s with
  | EmptyString => None
  | String d r =>
      if Ascii.eqb d c then Some (EmptyString, r)
      else match cut c r with
           | Some (a, b) => Some (String d a, b)
           | None => None
           end
  end.

(** The text up to the last [c] and the text after it. *)
Fixpoint cut_last (c : ascii) (s : string) : option (string * string) :=
  match s with
  | EmptyString => None
  | String d r =>
      match cut_last c r with
      | Some (a, b) => Some (String d a, b)
      | None => if Ascii.eqb d c then Some (EmptyString, r) else None
      end
  end.

(** [String.prototype.replace] with a string pattern: the first occurrence
    of [pat] is replaced, the rest of the text is kept. *)
Fixpoint replace_first (pat rep s : string) : string :=
  if String.prefix pat s
  then rep +:+ String.substring (String.length pat)
                 (String.length s - String.length pat) s
  else match s with
       | EmptyString => EmptyString
       | String d r => String d (replace_first pat rep r)
       end.

(** The decimal numeral of a length, as a template literal prints it. *)
Definition of_nat (n : nat) : string :=
  NilEmpty.string_of_uint (Nat.to_uint n).

End Str.

(** ** JavaScript values and objects *)

Module Js.

(** The value of [v] when it is truthy: a non-empty string. *)
Definition truthy (v : option string) : option string :=
  match v with
  | Some EmptyString => None
  | Some s => Some s
  | None => None
  end.

(** [a || b] where [b] is a string. *)
Definition or_else (a : option string) (b : string) : string :=
  match truthy a with
  | Some s => s
  | None => b
  end.

(** An object whose own enumerable properties are iterated in list order. *)
Definition Obj (V : Type) : Type := list (string * V).

Definition keys {V} (o : Obj V) : list string := o.*1.

Fixpoint get {V} (o : Obj V) (k : string) : option V :=
  match o with
  | [] => None
  | (k', v) :: r => if String.eqb k' k then Some v else get r k
  end.

(** [o[k] = v]: an existing property keeps its place, a new one is last. *)
Fixpoint set {V} (o : Obj V) (k : string) (v : V) : Obj V :=
  match o with
  | [] => [(k, v)]
  | (k', v') :: r =>
      if String.eqb k' k then (k', v) :: r else (k', v') :: set r k v
  end.

(** The names of the properties a plain object inherits from
    [Object.prototype]: [o[k]] is defined for them although [k] is no key of
    [o]. *)
Definition objectPrototype : list string :=
  ["constructor"; "__defineGetter__"; "__defineSetter__"; "hasOwnProperty";
   "__lookupGetter__"; "__lookupSetter__"; "isPrototypeOf";
   "propertyIsEnumerable"; "toString"; "valueOf"; "__proto__";
   "toLocaleString"].

Definition inherits (k : string) : bool :=
  existsb (String.eqb k) objectPrototype.

Inductive Error : Type :=
| TypeError (property : string)      (* reading [property] of undefined *)
| PlainError (message : string)      (* [new Error(message)] *)
| SystemError (code path : string)   (* an error of the [fs] module *)
| AwsError (message : string).       (* a rejected request of the SDK *)

Inductive result (A : Type) : Type :=
| Ok (a : A)
| Throw (e : Error).
Arguments Ok {A} a.
Arguments Throw {A} e.

(** A settled promise. *)
Inductive Promise (A : Type) : Type :=
| Resolved (a : A)
| Rejected (e : Error).
Arguments Resolved {A} a.
Arguments Rejected {A} e.

End Js.
Import Js.

(** ** The plug-in object *)

Record Options := {
  opt_stage : option string;
  opt_region : option string;
  opt_function : string;
}.

Record FunctionConfig := {
  fn_custom : option (gmap string string);
}.

Record Service := {
  service_name : string;
  provider_stage : option string;
  provider_region : option string;
  custom : option (gmap string string);
  functions : Obj FunctionConfig;
}.

Record Config := {
  servicePath : string;
  config_stage : option string;
  config_region : option string;
}.

Record Serverless := {
  config : Config;
  service : Service;
}.

(** What [getFunctionConfiguration] answers with: the field
    [Environment.Variables] may be missing. *)
Record FunctionDetails := {
  Environment_Variables : option (Obj string);
}.

(** [this]: the command-line options, the framework context and the Lambda
    client, which answers a function name with its configuration or fails. *)
Record Plugin := {
  options : option Options;
  serverless : Serverless;
  lambda_getFunctionConfiguration : string -> Promise FunctionDetails;
}.

(** ** Stage, region and names *)

Definition getStage (this : Plugin) : string :=
  let returnValue := "dev" in
  match truthy (options this ≫= opt_stage) with
  | Some stage => stage
  | None =>
      match truthy (config_stage (config (serverless this))) with
      | Some stage => stage
      | None =>
          match truthy (provider_stage (service (serverless this))) with
          | Some stage => stage
          | None => returnValue
          end
      end
  end.

Definition getRegion (this : Plugin) : string :=
  let returnValue := "us-east-1" in
  match truthy (options this ≫= opt_region) with
  | Some region => region
  | None =>
      match truthy (config_region (config (serverless this))) with
      | Some region => region
      | None =>
          match truthy (provider_region (service (serverless this))) with
          | Some region => region
          | None => returnValue
          end
      end
  end.

Definition getStackName (this : Plugin) : string :=
  service_name (service (serverless this)) +:+ "-" +:+ getStage this.

Definition getEnvDirectory (this : Plugin) : string :=
  let customDirectory :=
    custom (service (serverless this)) ≫= (.!! "resource-output-dir") in
  let directory := or_else customDirectory ".serverless-env-local" in
  let basePath :=
    Str.replace_first "/.webpack/service" EmptyString
      (servicePath (config (serverless this))) in
  basePath +:+ "/" +:+ directory.

(** The default name [.<region>_<stage>_<functionName>]. *)
Definition defaultFileName (region stage functionName : string) : string :=
  "." +:+ region +:+ "_" +:+ stage +:+ "_" +:+ functionName.

Definition getEnvFileName (this : Plugin) (functionName : string)
  : result string :=
  let stage := getStage this in
  let region := getRegion this in
  match get (functions (service (serverless this))) functionName with
  | Some fn =>
      let customName := fn_custom fn ≫= (.!! "resource-output-file") in
      Ok (or_else customName (defaultFileName region stage functionName))
  | None =>
      (* [functions[functionName]] is an inherited member, which has no
         [custom], or it is undefined *)
      if inherits functionName
      then Ok (or_else None (defaultFileName region stage functionName))
      else Throw (TypeError "custom")
  end.

(** ** The world: file system, log and process environment *)

(** A node of the file system: a regular file with its content, or a
    directory with the permission bits it was created with. *)
Inductive Node : Type :=
| File (content : string)
| Dir (mode : Z).

(** Paths are told apart by their spelling, which is exact for the paths in
    normal form the plug-in builds from a project root, a directory name and a
    file name; a path with an empty component, with [.] or with [..] is not
    resolved. A call fails before it changes anything. Links, ownership, the
    umask and the lack of permission or space are outside the model. *)
Record World := {
  files : gmap string Node;
  cli_log : list string;
  process_env : gmap string string;
}.

Definition with_files (f : gmap string Node) (w : World) : World :=
  {| files := f; cli_log := cli_log w; process_env := process_env w |}.

(** [this.serverless.cli.log(message)] *)
Definition log (message : string) (w : World) : World :=
  {| files := files w; cli_log := cli_log w ++ [message];
     process_env := process_env w |}.

(** [process.env[key] = value] *)
Definition setenv (key value : string) (w : World) : World :=
  {| files := files w; cli_log := cli_log w;
     process_env := <[key := value]> (process_env w) |}.

(** Effectful code: it may change the world, and returns or throws. *)
Definition M (A : Type) : Type := World -> World * result A.

Definition ret {A} (a : A) : M A := fun w => (w, Ok a).
Definition throw {A} (e : Error) : M A := fun w => (w, Throw e).
Definition bind {A B} (m : M A) (k : A -> M B) : M B :=
  fun w => match m w with
           | (w', Ok a) => k a w'
           | (w', Throw e) => (w', Throw e)
           end.
Definition lift {A} (r : result A) : M A := fun w => (w, r).
Definition tell (message : string) : M unit := fun w => (log message w, Ok ()).

Declare Scope js_scope.
Delimit Scope js_scope with js.
Notation "'let*' x := m 'in' k" := (bind m (fun x => k))
  (at level 10, x name, m at level 100, k at level 200) : js_scope.
Notation "m ;; k" := (bind m (fun _ => k))
  (at level 100, k at level 200, right associativity) : js_scope.

(** *** The [fs] module of Node.js, as far as the plug-in calls it *)

Module Fs.

(** The directory part of a path: the text before its last [/]. *)
Definition dirname (path : string) : string :=
  match Str.cut_last Str.slash path with
  | None => "."
  | Some (EmptyString, _) => "/"
  | Some (d, _) => d
  end.

Definition isDirectory (n : Node) : bool :=
  match n with
  | Dir _ => true
  | File _ => false
  end.

Definition existsSync (path : string) (w : World) : bool :=
  match files w !! path with
  | Some _ => true
  | None => false
  end.

(** [mkdirSync(path, mode)]: one directory is made, inside a directory that
    exists already. *)
Definition mkdirSync (path : string) (mode : Z) : M unit := fun w =>
  match files w !! path with
  | Some _ => (w, Throw (SystemError "EEXIST" path))
  | None =>
      match files w !! dirname path with
      | Some (Dir _) => (with_files (<[path := Dir mode]> (files w)) w, Ok ())
      | Some (File _) => (w, Throw (SystemError "ENOTDIR" path))
      | None => (w, Throw (SystemError "ENOENT" path))
      end
  end.

Definition statSync (path : string) : M Node := fun w =>
  match files w !! path with
  | Some n => (w, Ok n)
  | None => (w, Throw (SystemError "ENOENT" path))
  end.

(** [writeFile(path, data, callback)]: the file is created or truncated and
    then holds [data]; the answer is the [err] handed to the callback. *)
Definition writeFile (path data : string) (w : World)
  : World * option Error :=
  match files w !! path with
  | Some (Dir _) => (w, Some (SystemError "EISDIR" path))
  | _ =>
      match files w !! dirname path with
      | Some (Dir _) => (with_files (<[path := File data]> (files w)) w, None)
      | Some (File _) => (w, Some (SystemError "ENOTDIR" path))
      | None => (w, Some (SystemError "ENOENT" path))
      end
  end.

Definition readFileSync (path : string) (fs : gmap string Node)
  : result string :=
  match fs !! path with
  | Some (File content) => Ok content
  | Some (Dir _) => Throw (SystemError "EISDIR" path)
  | None => Throw (SystemError "ENOENT" path)
  end.

End Fs.

(** ** Writing the environment file *)

(** [0o700] *)
Definition mode_0o700 : Z := Z.shiftl 7 6.

(** [_.replace(item, /\n/g, "\\n")]: every newline becomes a backslash and
    the letter n. *)
Fixpoint escapeNewlines (item : string) : string :=
  match item with
  | EmptyString => EmptyString
  | String c r =>
      if Ascii.eqb c Str.newline
      then String Str.backslash (String "n" (escapeNewlines r))
      else String c (escapeNewlines r)
  end.

Definition nl : string := String Str.newline EmptyString.

(** The callback of [_.reduce] in [createCFFile]. *)
Definition appendProperty (properties : string) (entry : string * string)
  : string :=
  properties +:+ entry.1 +:+ "=" +:+ escapeNewlines entry.2 +:+ nl.

(** [_.reduce(resources, ..., '')] *)
Definition propertiesData (resources : Obj string) : string :=
  fold_left appendProperty resources EmptyString.

Definition fullName (path fileName : string) : string :=
  path +:+ "/" +:+ fileName.

Open Scope js_scope.

Definition createCFFile (this : Plugin) (functionName : string)
    (resources : Obj string) : M (Promise string) :=
  let path := getEnvDirectory this in
  let* fileName := lift (getEnvFileName this functionName) in
  let* _ := (fun w => if Fs.existsSync path w then ret () w
                      else Fs.mkdirSync path mode_0o700 w) in
  let* stat := Fs.statSync path in
  if negb (Fs.isDirectory stat)
  then throw (PlainError ("Expected " +:+ path +:+ " to be a directory"))
  else
    tell ("[serverless-env-local] Writing "
          +:+ Str.of_nat (length (keys resources))
          +:+ " CF resources to " +:+ fileName) ;;
    let fullFileName := fullName path fileName in
    let data := propertiesData resources in
    fun w => match Fs.writeFile fullFileName data w with
             | (w', Some err) => (w', Ok (Rejected err))
             | (w', None) => (w', Ok (Resolved data))
             end.

(** ** Reading it back and injecting *)

Section Reader.

(** [readSync] of the package [node-properties-parser], which is not part
    of the repository: given a file name and the file system it answers
    with the object parsed from that file, or throws. *)
Variable parseFile : string -> gmap string Node -> result (Obj string).

Definition getCFFileVars (this : Plugin) (functionName : string) (w : World)
  : result (Obj string) :=
  let path := getEnvDirectory this in
  match getEnvFileName this functionName with
  | Throw e => Throw e
  | Ok fileName =>
      let fullFileName := fullName path fileName in
      if negb (Fs.existsSync fullFileName w) then Ok []
      else parseFile fullFileName (files w)
  end.

(** [_.each(_.toPairs(envVars), ...)] *)
Definition injectAll (envVars : Obj string) (w : World) : World :=
  fold_left (fun w envVar => setenv envVar.1 envVar.2 w) envVars w.

Definition beforeLocalInvoke (this : Plugin) : M unit :=
  match options this with
  | None => throw (TypeError "function")
  | Some o =>
      let* fileName := lift (getEnvFileName this (opt_function o)) in
      let path := getEnvDirectory this in
      let fullPath := fullName path fileName in
      tell ("[serverless-env-local] Pulling in env variables from "
            +:+ fullPath) ;;
      let* envVars := (fun w => (w, getCFFileVars this (opt_function o) w)) in
      fun w => (injectAll envVars w, Ok ())
  end.

End Reader.

(** ** Capturing after a deploy *)

(** The line logged by the [catch] of a pipeline. *)
Definition lookupError (remoteName : string) : string :=
  "[serverless-env-local] Error looking up ENV vars for " +:+ remoteName
  +:+ ". Stack must have been deployed before running locally".

(** What [then] makes of its callback: the promise it returns, or a rejection
    with what it throws. *)
Definition settle {A} (r : result (Promise A)) : Promise A :=
  match r with
  | Ok promise => promise
  | Throw err => Rejected err
  end.

(** One element of [createFilesPromises]: the request, its [then] and its
    [catch]. *)
Definition captureFunction (this : Plugin) (stackName functionName : string)
    (w : World) : World * Promise string :=
  let remoteName := stackName +:+ "-" +:+ functionName in
  let '(w1, p) :=
    match lambda_getFunctionConfiguration this remoteName with
    | Rejected err => (w, Rejected err)
    | Resolved functionDetails =>
        let envVars := default [] (Environment_Variables functionDetails) in
        let '(w', r) := createCFFile this functionName envVars w in
        (w', settle r)
    end in
  match p with
  | Resolved data => (w1, Resolved data)
  | Rejected err => (log (lookupError remoteName) w1, Rejected err)
  end.

(** The promises of [_.map], for pipelines that settle one after the other
    in the order of [names], each write landing before the next pipeline
    runs: one of the orders in which the pipelines can settle. The order in
    which they really settle is not fixed by the code, so the properties of a
    capture are stated for every list [names]. *)
Fixpoint captureAll (this : Plugin) (stackName : string) (names : list string)
    (w : World) : World * list (Promise string) :=
  match names with
  | [] => (w, [])
  | functionName :: rest =>
      let '(w1, p) := captureFunction this stackName functionName w in
      let '(w2, ps) := captureAll this stackName rest w1 in
      (w2, p :: ps)
  end.

(** [Promise.all]: the values of all promises, or the first rejection. *)
Fixpoint Promise_all {A} (ps : list (Promise A)) : Promise (list A) :=
  match ps with
  | [] => Resolved []
  | Rejected e :: _ => Rejected e
  | Resolved a :: rest =>
      match Promise_all rest with
      | Resolved l => Resolved (a :: l)
      | Rejected e => Rejected e
      end
  end.

(** The promise [afterDeploy] returns, with the world once every pipeline
    has settled. *)
Definition afterDeploy (this : Plugin) (w : World)
  : World * Promise (list string) :=
  let stackName := getStackName this in
  let '(w', createFilesPromises) :=
    captureAll this stackName (keys (functions (service (serverless this)))) w in
  (w', Promise_all createFilesPromises).

(** ** The reader of the file format *)

Module Properties.

(** Modelled from the spec: the parser behind [readSync]
    ([node-properties-parser]) is missing from the sources. Section 4.2:
    the two characters backslash and n are unescaped to a newline. *)
Fixpoint unescapeNewlines (s : string) : string :=
  match s with
  | EmptyString => EmptyString
  | String c r =>
      if Ascii.eqb c Str.backslash
      then match r with
           | String d r' =>
               if Ascii.eqb d "n"
               then String Str.newline (unescapeNewlines r')
               else String c (unescapeNewlines r)
           | EmptyString => String c EmptyString
           end
      else String c (unescapeNewlines r)
  end.

(** Modelled from the spec: the missing parser is line-oriented
    (section 4.2); these are the lines of a text, cut at every newline. *)
Fixpoint lines (s : string) : list string :=
  match s with
  | EmptyString => [EmptyString]
  | String c r =>
      if Ascii.eqb c Str.newline then EmptyString :: lines r
      else match lines r with
           | l :: ls => String c l :: ls
           | [] => [String c EmptyString]
           end
  end.

(** Modelled from the spec: one [key=value] record of the missing parser
    (section 4.2), cut at its first [=]; a line without [=] is skipped,
    one of the two behaviours the spec leaves open. *)
Definition parseLine (o : Obj string) (line : string) : Obj string :=
  match Str.cut Str.equals line with
  | Some (key, value) => set o key (unescapeNewlines value)
  | None => o
  end.

(** Modelled from the spec: the missing parser maps the text of a file to
    the mapping of its records (section 4.2). *)
Definition parse (content : string) : Obj string :=
  fold_left parseLine (lines content) [].

(** Modelled from the spec: [readSync(path)] of the missing package reads
    the file and parses its text. *)
Definition readSync (path : string) (fs : gmap string Node)
  : result (Obj string) :=
  match Fs.readFileSync path fs with
  | Ok content => Ok (parse content)
  | Throw e => Throw e
  end.

End Properties.

(** ** The spec's words, to compare the code with *)

(** "First non-empty wins", with a literal fallback. *)
Fixpoint firstNonEmpty (candidates : list (option string)) (fallback : string)
  : string :=
  match candidates with
  | [] => fallback
  | Some (String c r) :: _ => String c r
  | _ :: rest => firstNonEmpty rest fallback
  end.

(** "for each entry, emit [key=escapedValue] followed by a newline" *)
Definition record (entry : string * string) : string :=
  entry.1 +:+ "=" +:+ escapeNewlines entry.2 +:+ nl.

(** "total byte content is the concatenation in iteration order" *)
Definition concatRecords (env : Obj string) : string :=
  foldr String.append EmptyString (record <$> env).

(** An EnvironmentMap of the data model: keys unique, non-empty, without [=]
    and without newline. *)
Definition validKey (k : string) : Prop :=
  k ≠ EmptyString ∧ Str.mem Str.equals k = false ∧ Str.mem Str.newline k = false.

Definition EnvironmentMap (env : Obj string) : Prop :=
  NoDup (keys env) ∧ Forall validKey (keys env).

(** A backslash directly followed by the letter n occurs in [s]. *)
Fixpoint hasBackslashN (s : string) : bool :=
  match s with
  | EmptyString => false
  | String c r =>
      match r with
      | String d _ =>
          if Ascii.eqb c Str.backslash && Ascii.eqb d "n" then true
          else hasBackslashN r
      | EmptyString => false
      end
  end.

(** A file name that is one path component. *)
Definition plainName (f : string) : Prop :=
  Str.mem Str.slash f = false ∧ f ≠ "." ∧ f ≠ "..".


(** ** Auxiliary definitions of the proofs *)

(** The override a function declares for its file name. *)
Definition fileOverride (fn : FunctionConfig) : option string :=
  fn_custom fn ≫= (.!! "resource-output-file").

(** The steps of [createCFFile] after its directory checks: the log line, the
    data and the call of [writeFile]. *)
Definition logAndWrite (path fileName : string) (resources : Obj string)
    (w : World) : World * result (Promise string) :=
  let data := propertiesData resources in
  match
    Fs.writeFile (fullName path fileName) data
      (log ("[serverless-env-local] Writing "
            +:+ Str.of_nat (length (keys resources))
            +:+ " CF resources to " +:+ fileName) w)
  with
  | (w', Some err) => (w', Ok (Rejected err))
  | (w', None) => (w', Ok (Resolved data))
  end.

Definition notADirectory (path : string) : Error :=
  PlainError ("Expected " +:+ path +:+ " to be a directory").

(** A record without its final newline: one line of the file. *)
Definition recordLine (entry : string * string) : string :=
  entry.1 +:+ "=" +:+ escapeNewlines entry.2.

(** ** A sample project *)

Module Sample.

Definition fn (o : option (gmap string string)) : FunctionConfig :=
  {| fn_custom := o |}.

Definition plugin (opts : option Options) (dir : option string)
    (fns : Obj FunctionConfig)
    (remote : string -> Promise FunctionDetails) : Plugin :=
  {| options := opts;
     serverless :=
       {| config := {| servicePath := "/proj"; config_stage := None;
                       config_region := None |};
          service := {| service_name := "svc"; provider_stage := None;
                        provider_region := None;
                        custom := (fun d => {["resource-output-dir" := d]}) <$> dir;
                        functions := fns |} |};
     lambda_getFunctionConfiguration := remote |}.

Definition invoke (f : string) : option Options :=
  Some {| opt_stage := None; opt_region := None; opt_function := f |}.

Definition noRemote : string -> Promise FunctionDetails :=
  fun _ => Rejected (AwsError "ResourceNotFoundException").

(** A project root with nothing captured yet. *)
Definition fresh : World :=
  {| files := {["/" := Dir 493; "/proj" := Dir 493]};
     cli_log := []; process_env := ∅ |}.

(** A world where the file of [hello] was captured and [FOO] is set to
    another value already. *)
Definition captured : World :=
  {| files :=
       <["/proj/.serverless-env-local/.us-east-1_dev_hello" :=
           File ("FOO=bar" +:+ nl +:+ "MULTI=line1\nline2" +:+ nl)]>
         (<["/proj/.serverless-env-local" := Dir 448]> (files fresh));
     cli_log := [];
     process_env := {["FOO" := "old"; "HOME" := "/root"]} |}.

(** Three declared functions; the remote knows the first and the third. *)
Definition three : Plugin :=
  plugin None None [("a", fn None); ("b", fn None); ("c", fn None)]
    (fun name =>
       if String.eqb name "svc-dev-b"
       then Rejected (AwsError "ResourceNotFoundException")
       else Resolved {| Environment_Variables := Some [("NAME", name)] |}).

End Sample.

(** ** Definitions of the further properties *)

(** The text [pat] occurs somewhere in [s]. *)
Fixpoint occurs (pat s : string) : bool :=
  if String.prefix pat s then true
  else match s with
       | EmptyString => false
       | String _ r => occurs pat r
       end.

(** How often the character [c] occurs in [s]. *)
Fixpoint countChar (c : ascii) (s : string) : nat :=
  match s with
  | EmptyString => 0
  | String d r => if Ascii.eqb d c then S (countChar c r) else countChar c r
  end.

(** The segment [getEnvDirectory] removes from the service path. *)
Definition webpackSegment : string := "/.webpack/service".

(** The local [directory] of [getEnvDirectory]. *)
Definition directoryName (this : Plugin) : string :=
  or_else (custom (service (serverless this)) ≫= (.!! "resource-output-dir"))
    ".serverless-env-local".

(** The plug-in with another Lambda client. *)
Definition with_lambda (this : Plugin)
    (remote : string -> Promise FunctionDetails) : Plugin :=
  {| options := options this; serverless := serverless this;
     lambda_getFunctionConfiguration := remote |}.

(** The name [afterDeploy] asks the Lambda client for. *)
Definition remoteName (this : Plugin) (functionName : string) : string :=
  getStackName this +:+ "-" +:+ functionName.

(** The environment the remote holds for a function: [{}] when the answer
    has no [Environment.Variables]. *)
Definition remoteEnv (details : FunctionDetails) : Obj string :=
  default [] (Environment_Variables details).



(** The pieces of a text between the occurrences of [c]. *)
Fixpoint splitOn (c : ascii) (s : string) : list string :=
  match s with
  | EmptyString => [EmptyString]
  | String d r =>
      if Ascii.eqb d c then EmptyString :: splitOn c r
      else match splitOn c r with
           | piece :: pieces => String d piece :: pieces
           | [] => [String d EmptyString]
           end
  end.

(** A name that can stand between two slashes of a path in normal form. *)
Definition component (f : string) : bool :=
  negb (String.eqb f EmptyString) && negb (String.eqb f ".")
  && negb (String.eqb f "..").

(** An absolute path in normal form: a slash before every component, no
    empty component, no [.] and no [..]. On such paths the spelling of a path
    tells which file it is, as the model of the file system has it. *)
Definition normalPath (p : string) : bool :=
  match splitOn Str.slash p with
  | EmptyString :: c :: cs => forallb component (c :: cs)
  | _ => false
  end.

(** The line [createCFFile] logs before it writes. *)
Definition writingLine (n : nat) (fileName : string) : string :=
  "[serverless-env-local] Writing " +:+ Str.of_nat n
  +:+ " CF resources to " +:+ fileName.

(** Every line of [l1] is still there, in front. *)
Definition extends (l1 l2 : list string) : Prop := exists l, l2 = l1 ++ l.

(** * Properties *)

(** ** Strings *)

Section StringFacts.

Lemma append_empty (b : string) : EmptyString +:+ b = b.
Proof. reflexivity. Qed.

Lemma append_cons (c : ascii) (a b : string) :
  String c a +:+ b = String c (a +:+ b).
Proof. reflexivity. Qed.

Lemma append_nil_r (s : string) : s +:+ EmptyString = s.
Proof.
  induction s as [|c s IH]; [done|]. by rewrite append_cons, IH.
Qed.

Lemma append_assoc (a b c : string) : (a +:+ b) +:+ c = a +:+ (b +:+ c).
Proof.
  induction a as [|x a IH]; [done|]. by rewrite !append_cons, IH.
Qed.

Lemma append_length (a b : string) :
  String.length (a +:+ b) = String.length a + String.length b.
Proof.
  induction a as [|x a IH]; [done|]. rewrite append_cons. simpl. by rewrite IH.
Qed.

Lemma mem_append (c : ascii) (a b : string) :
  Str.mem c (a +:+ b) = Str.mem c a || Str.mem c b.
Proof.
  induction a as [|x a IH]; [done|]. rewrite append_cons. simpl.
  by destruct (Ascii.eqb x c).
Qed.

(** Cutting at the first separator recovers a separator-free prefix. *)
Lemma cut_append (c : ascii) (a b : string) :
  Str.mem c a = false -> Str.cut c (a +:+ String c b) = Some (a, b).
Proof.
  induction a as [|x a IH]; rewrite ?append_cons, ?append_empty; simpl.
  - by rewrite Ascii.eqb_refl.
  - destruct (Ascii.eqb x c); [done|]. intros H. by rewrite IH.
Qed.

Lemma cut_none (c : ascii) (s : string) :
  Str.mem c s = false -> Str.cut c s = None.
Proof.
  induction s as [|x s IH]; simpl; [done|].
  destruct (Ascii.eqb x c); [done|]. intros H. by rewrite IH.
Qed.



End StringFacts.

(** ** Stage, region and file name *)

Lemma firstNonEmpty_cons (a : option string) rest fallback :
  firstNonEmpty (a :: rest) fallback =
  match truthy a with
  | Some s => s
  | None => firstNonEmpty rest fallback
  end.
Proof. by destruct a as [[|c r]|]. Qed.

(** C9: the stage is the first non-empty value among the command-line option,
    the stage of the project configuration and the stage the provider
    declares, and the literal dev when all three are empty; the region is
    resolved in the same order with the fallback us-east-1. *)
Theorem stage_region_precedence (this : Plugin) :
  getStage this =
    firstNonEmpty [options this ≫= opt_stage;
                   config_stage (config (serverless this));
                   provider_stage (service (serverless this))] "dev"
  ∧ getRegion this =
    firstNonEmpty [options this ≫= opt_region;
                   config_region (config (serverless this));
                   provider_region (service (serverless this))] "us-east-1".
Proof.
  unfold getStage, getRegion. by rewrite !firstNonEmpty_cons.
Qed.

(** The command line wins over the configuration; an empty option does not. *)
Example stage_from_command_line :
  let this (cli : string) :=
    {| options := Some {| opt_stage := Some cli; opt_region := None;
                          opt_function := "hello" |};
       serverless :=
         {| config := {| servicePath := "/proj"; config_stage := Some "qa";
                         config_region := None |};
            service := {| service_name := "svc"; provider_stage := Some "prod";
                          provider_region := Some "eu-west-1"; custom := None;
                          functions := [] |} |};
       lambda_getFunctionConfiguration := Sample.noRemote |} in
  getStage (this "beta") = "beta" ∧ getStage (this EmptyString) = "qa"
  ∧ getRegion (this "beta") = "eu-west-1"
  ∧ getStackName (this "beta") = "svc-beta".
Proof. repeat split. Qed.

Lemma Ok_inj {A} (a b : A) : Ok a = Ok b -> a = b.
Proof. by intros [= ->]. Qed.

Lemma or_else_truthy (o d : string) :
  o ≠ EmptyString -> or_else (Some o) d = o.
Proof. by destruct o. Qed.

Lemma or_else_falsy (a : option string) (d : string) :
  truthy a = None -> or_else a d = d.
Proof. unfold or_else. by intros ->. Qed.

(** The default name determines its three parts when the separator occurs
    neither in the region nor in the stage. *)
Lemma defaultFileName_inj (r s f r' s' f' : string) :
  Str.mem Str.underscore r = false -> Str.mem Str.underscore s = false ->
  Str.mem Str.underscore r' = false -> Str.mem Str.underscore s' = false ->
  defaultFileName r s f = defaultFileName r' s' f' ->
  r = r' ∧ s = s' ∧ f = f'.
Proof.
  intros Hr Hs Hr' Hs' Heq. unfold defaultFileName in Heq.
  rewrite !append_cons, !append_empty in Heq.
  injection Heq as Heq.
  assert (Hc := f_equal (Str.cut Str.underscore) Heq).
  rewrite !(cut_append Str.underscore) in Hc by done.
  injection Hc as -> Hc.
  assert (Hd := f_equal (Str.cut Str.underscore) Hc).
  rewrite !(cut_append Str.underscore) in Hd by done.
  by injection Hd as -> ->.
Qed.

(** C7 (amended): for a declared function whose override is absent or empty
    the file name is the default [.<region>_<stage>_<functionName>]; a
    non-empty override is returned as it is; the default is the same for the
    same region, stage and function, and two defaults are equal only for
    equal regions, stages and functions, provided the separator occurs in no
    region and no stage. *)
Theorem file_name_resolution (this : Plugin) (functionName : string)
    (fn : FunctionConfig) :
  get (functions (service (serverless this))) functionName = Some fn ->
  (truthy (fileOverride fn) = None ->
     getEnvFileName this functionName =
       Ok (defaultFileName (getRegion this) (getStage this) functionName))
  ∧ (forall o, fileOverride fn = Some o -> o ≠ EmptyString ->
       getEnvFileName this functionName = Ok o)
  ∧ (forall this' fn',
       get (functions (service (serverless this'))) functionName = Some fn' ->
       truthy (fileOverride fn) = None -> truthy (fileOverride fn') = None ->
       getRegion this = getRegion this' -> getStage this = getStage this' ->
       getEnvFileName this functionName = getEnvFileName this' functionName)
  ∧ (forall this' functionName' fn',
       get (functions (service (serverless this'))) functionName' = Some fn' ->
       truthy (fileOverride fn) = None -> truthy (fileOverride fn') = None ->
       Str.mem Str.underscore (getRegion this) = false ->
       Str.mem Str.underscore (getStage this) = false ->
       Str.mem Str.underscore (getRegion this') = false ->
       Str.mem Str.underscore (getStage this') = false ->
       getEnvFileName this functionName = getEnvFileName this' functionName' ->
       getRegion this = getRegion this' ∧ getStage this = getStage this'
       ∧ functionName = functionName').
Proof.
  intros Hfn. unfold getEnvFileName, fileOverride in *. rewrite Hfn.
  split; [|split; [|split]].
  - intros Hnone. by rewrite or_else_falsy.
  - intros o -> Ho. by rewrite or_else_truthy.
  - intros this' fn' -> Hn Hn' -> ->. by rewrite !or_else_falsy.
  - intros this' functionName' fn' -> Hn Hn' Hr Hs Hr' Hs' Heq.
    rewrite !or_else_falsy in Heq by done.
    apply Ok_inj in Heq. by apply defaultFileName_inj in Heq.
Qed.

Lemma file_name_resolution_witness :
  let this :=
    Sample.plugin None None [("hello", Sample.fn None)] Sample.noRemote in
  get (functions (service (serverless this))) "hello" = Some (Sample.fn None)
  ∧ getEnvFileName this "hello" = Ok ".us-east-1_dev_hello".
Proof.
  intros this. split; [reflexivity|].
  apply (proj1 (file_name_resolution this "hello" (Sample.fn None) eq_refl)).
  reflexivity.
Defined.

(** C7, as stated, fails: an override that is the empty string is declared
    and yet the default name is returned. *)
Lemma file_name_override_counterexample :
  let fn := Sample.fn (Some {["resource-output-file" := EmptyString]}) in
  let this := Sample.plugin None None [("hello", fn)] Sample.noRemote in
  fileOverride fn = Some EmptyString
  ∧ getEnvFileName this "hello" = Ok ".us-east-1_dev_hello"
  ∧ getEnvFileName this "hello" ≠ Ok EmptyString.
Proof.
  split; [reflexivity|]. split; [reflexivity|]. discriminate.
Qed.

(** ** Writing: the run of [createCFFile] *)

(** [createCFFile] by cases on what is found at the directory path. *)
Lemma createCFFile_cases (this : Plugin) (functionName fileName : string)
    (resources : Obj string) (w : World) :
  getEnvFileName this functionName = Ok fileName ->
  createCFFile this functionName resources w =
    let path := getEnvDirectory this in
    match files w !! path with
    | Some (File _) => (w, Throw (notADirectory path))
    | Some (Dir _) => logAndWrite path fileName resources w
    | None =>
        match files w !! Fs.dirname path with
        | Some (Dir _) =>
            logAndWrite path fileName resources
              (with_files (<[path := Dir mode_0o700]> (files w)) w)
        | Some (File _) => (w, Throw (SystemError "ENOTDIR" path))
        | None => (w, Throw (SystemError "ENOENT" path))
        end
    end.
Proof.
  intros Hname. unfold createCFFile, bind, lift, logAndWrite. rewrite Hname.
  cbv zeta. unfold Fs.existsSync, Fs.mkdirSync, Fs.statSync, ret.
  destruct (files w !! getEnvDirectory this) as [[c|m]|] eqn:Hdir.
  - by rewrite Hdir.
  - by rewrite Hdir.
  - destruct (files w !! Fs.dirname (getEnvDirectory this)) as [[c|m]|];
      [done| |done].
    simpl. by rewrite lookup_insert_eq.
Qed.

Lemma createCFFile_undeclared (this : Plugin) (functionName : string)
    (resources : Obj string) (w : World) (e : Error) :
  getEnvFileName this functionName = Throw e ->
  createCFFile this functionName resources w = (w, Throw e).
Proof.
  intros Hname. unfold createCFFile, bind, lift. by rewrite Hname.
Qed.

(** The reduction of [createCFFile] is the concatenation of the records. *)
Lemma fold_appendProperty (resources : Obj string) (acc : string) :
  fold_left appendProperty resources acc = acc +:+ concatRecords resources.
Proof.
  revert acc. induction resources as [|entry rest IH]; intros acc; simpl.
  - by rewrite append_nil_r.
  - rewrite IH. unfold appendProperty, concatRecords, record. simpl.
    by rewrite !append_assoc.
Qed.

Lemma propertiesData_concat (resources : Obj string) :
  propertiesData resources = concatRecords resources.
Proof. unfold propertiesData. by rewrite fold_appendProperty. Qed.

(** The directory of the store is never the empty path, and the file of a
    plain name lies directly in it. *)
Lemma getEnvDirectory_nonempty (this : Plugin) :
  getEnvDirectory this ≠ EmptyString.
Proof.
  unfold getEnvDirectory. cbv zeta. intros H.
  apply (f_equal String.length) in H.
  rewrite !append_length in H. simpl in H. lia.
Qed.


Lemma fullName_neq (path fileName : string) : fullName path fileName ≠ path.
Proof.
  unfold fullName. intros H. apply (f_equal String.length) in H.
  rewrite !append_length in H. simpl in H. lia.
Qed.

(** ** Writing: the three outcomes at the directory path *)

(** C5: when the directory path of the store exists and is not a directory,
    writing fails with the error that a directory was expected there, and the
    world (files, log, environment) is left as it was: nothing is written. *)
Theorem write_fails_on_plain_file (this : Plugin)
    (functionName fileName : string) (resources : Obj string) (w : World)
    (content : string) :
  getEnvFileName this functionName = Ok fileName ->
  files w !! getEnvDirectory this = Some (File content) ->
  createCFFile this functionName resources w =
    (w, Throw (PlainError
                 ("Expected " +:+ getEnvDirectory this +:+ " to be a directory"))).
Proof.
  intros Hname Hfile.
  rewrite (createCFFile_cases _ _ _ _ _ Hname). cbv zeta. by rewrite Hfile.
Qed.

Lemma write_fails_on_plain_file_witness :
  let this :=
    Sample.plugin None None [("hello", Sample.fn None)] Sample.noRemote in
  let w := with_files (<["/proj/.serverless-env-local" := File "x"]>
                         (files Sample.fresh)) Sample.fresh in
  getEnvFileName this "hello" = Ok ".us-east-1_dev_hello"
  ∧ files w !! getEnvDirectory this = Some (File "x")
  ∧ createCFFile this "hello" [("FOO", "bar")] w =
      (w, Throw (PlainError
                   "Expected /proj/.serverless-env-local to be a directory")).
Proof.
  intros this w.
  assert (Hname : getEnvFileName this "hello" = Ok ".us-east-1_dev_hello")
    by reflexivity.
  assert (Hfile : files w !! getEnvDirectory this = Some (File "x"))
    by (vm_compute; reflexivity).
  split; [exact Hname|]. split; [exact Hfile|].
  exact (write_fails_on_plain_file this "hello" _ [("FOO", "bar")] w "x"
           Hname Hfile).
Defined.

Lemma logAndWrite_resolved (path fileName : string) (resources : Obj string)
    (w w' : World) (data : string) :
  logAndWrite path fileName resources w = (w', Ok (Resolved data)) ->
  data = propertiesData resources
  ∧ files w' = <[fullName path fileName := File data]> (files w)
  ∧ process_env w' = process_env w.
Proof.
  unfold logAndWrite, Fs.writeFile. simpl.
  destruct (files w !! fullName path fileName) as [[c|m]|];
    destruct (files w !! Fs.dirname (fullName path fileName)) as [[c'|m']|];
    intros [= <- <-]; done.
Qed.

Lemma logAndWrite_succeeds (path fileName : string) (resources : Obj string)
    (w : World) (m : Z) :
  files w !! Fs.dirname (fullName path fileName) = Some (Dir m) ->
  (forall m', files w !! fullName path fileName ≠ Some (Dir m')) ->
  exists w',
    logAndWrite path fileName resources w =
      (w', Ok (Resolved (propertiesData resources)))
    ∧ files w' =
        <[fullName path fileName := File (propertiesData resources)]> (files w).
Proof.
  intros Hparent Hnodir. unfold logAndWrite, Fs.writeFile. simpl.
  rewrite Hparent.
  destruct (files w !! fullName path fileName) as [[c|m']|] eqn:Hfile;
    [| by destruct (Hnodir m') |]; eexists; split; reflexivity.
Qed.

(** What a resolved write leaves behind: the data of the reduction in the
    file, in a store directory that was there or has just been made. *)
Lemma createCFFile_resolved (this : Plugin) (functionName : string)
    (resources : Obj string) (w w' : World) (data : string) :
  createCFFile this functionName resources w = (w', Ok (Resolved data)) ->
  exists fileName,
    getEnvFileName this functionName = Ok fileName
    ∧ data = propertiesData resources
    ∧ (files w' =
         <[fullName (getEnvDirectory this) fileName := File data]> (files w)
       ∨ files w' =
         <[fullName (getEnvDirectory this) fileName := File data]>
           (<[getEnvDirectory this := Dir mode_0o700]> (files w))).
Proof.
  intros Hrun.
  destruct (getEnvFileName this functionName) as [fileName|e] eqn:Hname;
    [| by rewrite (createCFFile_undeclared _ _ _ _ _ Hname) in Hrun ].
  rewrite (createCFFile_cases _ _ _ _ _ Hname) in Hrun. cbv zeta in Hrun.
  exists fileName. split; [done|].
  destruct (files w !! getEnvDirectory this) as [[c|m]|] eqn:Hdir; [done| |].
  - apply logAndWrite_resolved in Hrun as (-> & Hfiles & _). auto.
  - destruct (files w !! Fs.dirname (getEnvDirectory this)) as [[c|m]|];
      [done| |done].
    apply logAndWrite_resolved in Hrun as (-> & Hfiles & _). auto.
Qed.

Lemma createCFFile_resolved_file (this : Plugin) (functionName : string)
    (resources : Obj string) (w w' : World) (data : string) :
  createCFFile this functionName resources w = (w', Ok (Resolved data)) ->
  exists fileName,
    getEnvFileName this functionName = Ok fileName
    ∧ data = propertiesData resources
    ∧ files w' !! fullName (getEnvDirectory this) fileName = Some (File data).
Proof.
  intros Hrun.
  apply createCFFile_resolved in Hrun as (fileName & Hname & Hdata & Hfiles).
  exists fileName. do 2 (split; [done|]).
  destruct Hfiles as [-> | ->]; apply lookup_insert_eq.
Qed.

(** C2: when a write completes successfully, the file of the address holds
    exactly the concatenation, in iteration order, of one record
    [key=escapedValue] and a newline per entry, whatever the file held before;
    no other file is touched. *)
Theorem write_replaces_file (this : Plugin) (functionName : string)
    (resources : Obj string) (w w' : World) (data : string) :
  createCFFile this functionName resources w = (w', Ok (Resolved data)) ->
  exists fileName,
    getEnvFileName this functionName = Ok fileName
    ∧ data = concatRecords resources
    ∧ files w' !! fullName (getEnvDirectory this) fileName =
        Some (File (concatRecords resources))
    ∧ (forall p, p ≠ fullName (getEnvDirectory this) fileName ->
         p ≠ getEnvDirectory this -> files w' !! p = files w !! p).
Proof.
  intros Hrun.
  apply createCFFile_resolved in Hrun as (fileName & Hname & -> & Hfiles).
  exists fileName. split; [done|].
  rewrite propertiesData_concat in *. split; [done|].
  destruct Hfiles as [-> | ->].
  - split; [apply lookup_insert_eq|].
    intros p Hp _. by rewrite lookup_insert_ne.
  - split; [apply lookup_insert_eq|].
    intros p Hp Hp'. by rewrite !lookup_insert_ne.
Qed.

Lemma write_replaces_file_witness :
  let this :=
    Sample.plugin None None [("hello", Sample.fn None)] Sample.noRemote in
  let env := [("FOO", "bar"); ("MULTI", "line1" +:+ nl +:+ "line2")] in
  let old := with_files
    (<["/proj/.serverless-env-local/.us-east-1_dev_hello" := File "OLD=1"]>
       (<["/proj/.serverless-env-local" := Dir 448]> (files Sample.fresh)))
    Sample.fresh in
  exists w',
    createCFFile this "hello" env old =
      (w', Ok (Resolved (concatRecords env)))
    ∧ files w' !! "/proj/.serverless-env-local/.us-east-1_dev_hello" =
        Some (File ("FOO=bar" +:+ nl +:+ "MULTI=line1\nline2" +:+ nl)).
Proof.
  intros this env old.
  destruct (createCFFile this "hello" env old) as [w' r] eqn:Hrun.
  assert (Hr : r = Ok (Resolved (concatRecords env)))
    by (apply (f_equal snd) in Hrun; vm_compute in Hrun; by subst r).
  subst r. exists w'. split; [done|].
  destruct (write_replaces_file this "hello" env old w' _ Hrun)
    as (fileName & Hname & _ & Hfile & _).
  assert (fileName = ".us-east-1_dev_hello") as ->
    by (vm_compute in Hname; by injection Hname as <-).
  exact Hfile.
Defined.




(** ** The reader undoes the writer *)

Lemma escape_no_newline (v : string) :
  Str.mem Str.newline (escapeNewlines v) = false.
Proof.
  induction v as [|c r IH]; [done|]. simpl.
  destruct (Ascii.eqb c Str.newline) eqn:Hc; simpl; by rewrite ?Hc.
Qed.

Lemma hasBackslashN_cons (c d : ascii) (r : string) :
  hasBackslashN (String c (String d r)) =
  if Ascii.eqb c Str.backslash && Ascii.eqb d "n" then true
  else hasBackslashN (String d r).
Proof. reflexivity. Qed.

Lemma hasBackslashN_tail (c : ascii) (r : string) :
  hasBackslashN (String c r) = false -> hasBackslashN r = false.
Proof.
  destruct r as [|d r']; [done|]. rewrite hasBackslashN_cons.
  by destruct (Ascii.eqb c Str.backslash && Ascii.eqb d "n").
Qed.

Lemma unescape_cons (c : ascii) (s : string) :
  Properties.unescapeNewlines (String c s) =
  if Ascii.eqb c Str.backslash
  then match s with
       | String d r =>
           if Ascii.eqb d "n"
           then String Str.newline (Properties.unescapeNewlines r)
           else String c (Properties.unescapeNewlines s)
       | EmptyString => String c EmptyString
       end
  else String c (Properties.unescapeNewlines s).
Proof. reflexivity. Qed.

Lemma unescape_escape (v : string) :
  hasBackslashN v = false ->
  Properties.unescapeNewlines (escapeNewlines v) = v.
Proof.
  induction v as [|c r IH]; [done|]. intros Hv.
  specialize (IH (hasBackslashN_tail _ _ Hv)).
  simpl escapeNewlines. destruct (Ascii.eqb c Str.newline) eqn:Hc.
  - apply Ascii.eqb_eq in Hc as ->. simpl. by rewrite IH.
  - rewrite unescape_cons.
    destruct (Ascii.eqb c Str.backslash) eqn:Hb; [|by rewrite IH].
    destruct r as [|d r']; [done|].
    rewrite hasBackslashN_cons, Hb in Hv. simpl in Hv.
    destruct (Ascii.eqb d "n") eqn:Hd; [done|].
    rewrite <- IH at 2. simpl escapeNewlines.
    destruct (Ascii.eqb d Str.newline); [done|]. by rewrite Hd.
Qed.

Lemma escape_cons (c : ascii) (r : string) :
  escapeNewlines (String c r) =
  if Ascii.eqb c Str.newline
  then String Str.backslash (String "n" (escapeNewlines r))
  else String c (escapeNewlines r).
Proof. reflexivity. Qed.

Lemma hasBackslashN_newline (r : string) :
  hasBackslashN (String Str.newline r) = true -> hasBackslashN r = true.
Proof. destruct r as [|d r']; [done|]. by rewrite hasBackslashN_cons. Qed.

(** Reading back what was written never lengthens a value, and shortens it
    when it holds a backslash followed by n. *)
Lemma unescape_escape_length (n : nat) (v : string) :
  String.length v <= n ->
  String.length (Properties.unescapeNewlines (escapeNewlines v))
    <= String.length v
  ∧ (hasBackslashN v = true ->
     String.length (Properties.unescapeNewlines (escapeNewlines v))
       < String.length v).
Proof.
  revert v. induction n as [|n IH]; intros v Hlen.
  { destruct v; [by split|simpl in Hlen; lia]. }
  destruct v as [|c r]; [by split|]. simpl in Hlen.
  destruct (IH r ltac:(lia)) as [Hle Hlt].
  rewrite escape_cons. destruct (Ascii.eqb c Str.newline) eqn:Hc.
  - apply Ascii.eqb_eq in Hc as ->. rewrite unescape_cons. simpl.
    split; [lia|]. intros H. apply hasBackslashN_newline in H.
    specialize (Hlt H). lia.
  - rewrite unescape_cons. destruct (Ascii.eqb c Str.backslash) eqn:Hb.
    + destruct r as [|d r']; [by split|].
      rewrite hasBackslashN_cons, Hb. simpl andb.
      rewrite escape_cons. destruct (Ascii.eqb d Str.newline) eqn:Hd.
      * apply Ascii.eqb_eq in Hd as ->. simpl Ascii.eqb. cbv iota.
        rewrite escape_cons in Hle, Hlt. simpl Ascii.eqb in Hle, Hlt.
        cbv iota in Hle, Hlt. simpl in *. split; [lia|].
        intros H. specialize (Hlt H). lia.
      * destruct (Ascii.eqb d "n") eqn:Hn.
        -- simpl in Hlen. destruct (IH r' ltac:(lia)) as [Hle' _].
           simpl. split; [lia|]. intros _. lia.
        -- rewrite escape_cons, Hd in Hle, Hlt. simpl in *.
           split; [lia|]. intros H. specialize (Hlt H). lia.
    + assert (Htail : hasBackslashN (String c r) = true ->
                      hasBackslashN r = true).
      { destruct r as [|d r']; [done|]. by rewrite hasBackslashN_cons, Hb. }
      simpl. split; [lia|]. intros H. specialize (Hlt (Htail H)). lia.
Qed.

(** The values that survive a write and a read are exactly those without a
    backslash followed by n. *)
Lemma unescape_escape_iff (v : string) :
  Properties.unescapeNewlines (escapeNewlines v) = v <->
  hasBackslashN v = false.
Proof.
  split; [|apply unescape_escape].
  intros Heq. destruct (hasBackslashN v) eqn:Hv; [|done].
  destruct (unescape_escape_length (String.length v) v (le_n _)) as [_ Hlt].
  specialize (Hlt Hv). rewrite Heq in Hlt. lia.
Qed.

Lemma lines_record (l rest : string) :
  Str.mem Str.newline l = false ->
  Properties.lines (l +:+ String Str.newline rest) = l :: Properties.lines rest.
Proof.
  induction l as [|c l IH]; rewrite ?append_cons, ?append_empty; [done|].
  simpl. destruct (Ascii.eqb c Str.newline); [done|]. intros H.
  by rewrite IH.
Qed.

Lemma record_line (entry : string * string) (rest : string) :
  record entry +:+ rest = recordLine entry +:+ String Str.newline rest.
Proof.
  unfold record, recordLine, nl. by rewrite !append_assoc.
Qed.

Lemma lines_concatRecords (env : Obj string) :
  Forall validKey (keys env) ->
  Properties.lines (concatRecords env) = (recordLine <$> env) ++ [EmptyString].
Proof.
  induction env as [|[k v] rest IH]; intros Hkeys; [done|].
  apply Forall_cons in Hkeys as [(_ & _ & Hk) Hrest]. simpl in Hk.
  unfold concatRecords. simpl. rewrite record_line, lines_record.
  - f_equal. by apply IH.
  - unfold recordLine. simpl.
    rewrite !mem_append, Hk, escape_no_newline. done.
Qed.

Lemma parseLine_recordLine (o : Obj string) (entry : string * string) :
  validKey entry.1 ->
  Properties.parseLine o (recordLine entry) =
    set o entry.1 (Properties.unescapeNewlines (escapeNewlines entry.2)).
Proof.
  intros (_ & Hk & _). unfold Properties.parseLine, recordLine.
  rewrite append_cons, append_empty.
  by rewrite (cut_append Str.equals).
Qed.

Lemma parseLine_record (o : Obj string) (entry : string * string) :
  validKey entry.1 -> hasBackslashN entry.2 = false ->
  Properties.parseLine o (recordLine entry) = set o entry.1 entry.2.
Proof.
  intros Hk Hv. by rewrite parseLine_recordLine, unescape_escape.
Qed.

Lemma set_fresh {V} (o : Obj V) (k : string) (v : V) :
  k ∉ keys o -> set o k v = o ++ [(k, v)].
Proof.
  induction o as [|[k' v'] o IH]; intros Hk; [done|].
  simpl in *. apply not_elem_of_cons in Hk as [Hne Hk].
  destruct (String.eqb k' k) eqn:Heq.
  - apply String.eqb_eq in Heq. congruence.
  - by rewrite IH.
Qed.

Lemma fold_set_fresh (env acc : Obj string) :
  NoDup (keys (acc ++ env)) ->
  fold_left (fun o entry => set o entry.1 entry.2) env acc = acc ++ env.
Proof.
  revert acc. induction env as [|[k v] rest IH]; intros acc Hnd; simpl.
  - by rewrite app_nil_r.
  - unfold keys in Hnd. rewrite fmap_app in Hnd. simpl in Hnd.
    rewrite set_fresh.
    + rewrite IH; [by rewrite <- app_assoc|].
      unfold keys. rewrite !fmap_app. simpl. by rewrite <- app_assoc.
    + apply NoDup_app in Hnd as (_ & Hdisj & _).
      intros Hin. apply (Hdisj k Hin). by left.
Qed.

Lemma fold_parseLine_records (env acc : Obj string) :
  Forall validKey (keys env) ->
  Forall (fun v => hasBackslashN v = false) env.*2 ->
  fold_left Properties.parseLine (recordLine <$> env) acc =
  fold_left (fun o entry => set o entry.1 entry.2) env acc.
Proof.
  revert acc. induction env as [|[k v] rest IH]; intros acc Hkeys Hvals; [done|].
  apply Forall_cons in Hkeys as [Hk Hkeys].
  apply Forall_cons in Hvals as [Hv Hvals].
  simpl. rewrite (parseLine_record acc (k, v)) by done. by apply IH.
Qed.

Lemma parse_concatRecords (env : Obj string) :
  EnvironmentMap env ->
  Forall (fun v => hasBackslashN v = false) env.*2 ->
  Properties.parse (concatRecords env) = env.
Proof.
  intros [Hnd Hkeys] Hvals. unfold Properties.parse.
  rewrite lines_concatRecords by done. rewrite fold_left_app. simpl.
  rewrite fold_parseLine_records by done.
  by rewrite (fold_set_fresh env []).
Qed.

(** A map of one entry is read back as it was written exactly when its
    value holds no backslash followed by n. *)
Lemma parse_single_iff (k v : string) :
  validKey k ->
  Properties.parse (concatRecords [(k, v)]) = [(k, v)] <->
  hasBackslashN v = false.
Proof.
  intros Hk. unfold Properties.parse.
  rewrite lines_concatRecords by (by constructor).
  simpl. rewrite (parseLine_recordLine [] (k, v)) by done.
  unfold Properties.parseLine. simpl.
  rewrite <- unescape_escape_iff. split; [by intros [= ->]|by intros ->].
Qed.

(** ** Reading and injecting *)

Section ReaderFacts.

Variable parseFile : string -> gmap string Node -> result (Obj string).

(** Reading looks at the files only. *)
Lemma getCFFileVars_files (this : Plugin) (functionName : string)
    (w1 w2 : World) :
  files w1 = files w2 ->
  getCFFileVars parseFile this functionName w1 =
  getCFFileVars parseFile this functionName w2.
Proof.
  intros Hfiles. unfold getCFFileVars, Fs.existsSync. by rewrite Hfiles.
Qed.

Lemma getCFFileVars_declared (this : Plugin) (functionName : string)
    (w : World) (envVars : Obj string) :
  getCFFileVars parseFile this functionName w = Ok envVars ->
  exists fileName, getEnvFileName this functionName = Ok fileName.
Proof.
  unfold getCFFileVars.
  destruct (getEnvFileName this functionName) as [fileName|e]; [eauto|done].
Qed.

Lemma injectAll_files (envVars : Obj string) (w : World) :
  files (injectAll envVars w) = files w
  ∧ cli_log (injectAll envVars w) = cli_log w.
Proof.
  revert w. induction envVars as [|[k v] rest IH]; intros w; [done|].
  simpl. by destruct (IH (setenv k v w)) as [-> ->].
Qed.

Lemma injectAll_other (envVars : Obj string) (w : World) (k : string) :
  k ∉ keys envVars ->
  process_env (injectAll envVars w) !! k = process_env w !! k.
Proof.
  revert w. induction envVars as [|[k' v] rest IH]; intros w Hk; [done|].
  simpl in *. apply not_elem_of_cons in Hk as [Hne Hk].
  rewrite IH by done. simpl. by rewrite lookup_insert_ne.
Qed.

Lemma injectAll_entry (envVars : Obj string) (w : World) (k v : string) :
  NoDup (keys envVars) -> (k, v) ∈ envVars ->
  process_env (injectAll envVars w) !! k = Some v.
Proof.
  revert w. induction envVars as [|[k' v'] rest IH]; intros w Hnd Hin.
  - by apply elem_of_nil in Hin.
  - simpl in *. apply NoDup_cons in Hnd as [Hfresh Hnd].
    apply elem_of_cons in Hin as [[= <- <-]|Hin].
    + rewrite injectAll_other by done. simpl. apply lookup_insert_eq.
    + by apply IH.
Qed.

(** The run of [beforeLocalInvoke] when the read returns a map. *)
Lemma beforeLocalInvoke_run (this : Plugin) (o : Options) (w : World)
    (envVars : Obj string) :
  options this = Some o ->
  getCFFileVars parseFile this (opt_function o) w = Ok envVars ->
  exists fileName,
    getEnvFileName this (opt_function o) = Ok fileName
    ∧ beforeLocalInvoke parseFile this w =
        (injectAll envVars
           (log ("[serverless-env-local] Pulling in env variables from "
                 +:+ fullName (getEnvDirectory this) fileName) w),
         Ok ()).
Proof.
  intros Hopt Hread.
  destruct (getCFFileVars_declared _ _ _ _ Hread) as [fileName Hname].
  exists fileName. split; [done|].
  unfold beforeLocalInvoke, bind, lift, tell. rewrite Hopt, Hname.
  by rewrite (getCFFileVars_files this _ (log _ w) w eq_refl), Hread.
Qed.

(** C3: when no file exists at the address of a function, reading returns
    the empty map and raises no error. *)
Theorem read_missing_file_is_empty (this : Plugin)
    (functionName fileName : string) (w : World) :
  getEnvFileName this functionName = Ok fileName ->
  files w !! fullName (getEnvDirectory this) fileName = None ->
  getCFFileVars parseFile this functionName w = Ok [].
Proof.
  intros Hname Hmissing. unfold getCFFileVars, Fs.existsSync.
  by rewrite Hname, Hmissing.
Qed.

(** C8: injecting reads the map persisted for the target function and sets
    every entry of the returned map in the process environment, whatever
    was there under that name; variables of other names, and the files,
    stay as they were; when the map read is empty the environment is
    unchanged and no error is raised. *)
Theorem inject_sets_every_entry (this : Plugin) (o : Options) (w : World)
    (envVars : Obj string) :
  options this = Some o ->
  getCFFileVars parseFile this (opt_function o) w = Ok envVars ->
  NoDup (keys envVars) ->
  exists w',
    beforeLocalInvoke parseFile this w = (w', Ok ())
    ∧ (forall k v, (k, v) ∈ envVars -> process_env w' !! k = Some v)
    ∧ (forall k, k ∉ keys envVars ->
         process_env w' !! k = process_env w !! k)
    ∧ files w' = files w
    ∧ (envVars = [] -> process_env w' = process_env w).
Proof.
  intros Hopt Hread Hnd.
  destruct (beforeLocalInvoke_run this o w envVars Hopt Hread)
    as (fileName & _ & Hrun).
  eexists. split; [exact Hrun|].
  split; [intros k v Hin; by apply injectAll_entry|].
  split; [intros k Hk; by rewrite injectAll_other|].
  split; [by destruct (injectAll_files envVars
                         (log ("[serverless-env-local] Pulling in env variables from "
                               +:+ fullName (getEnvDirectory this) fileName) w))|].
  by intros ->.
Qed.

(** C10 (amended): for a name that is neither a key of the declared
    functions nor the name of a property inherited from [Object.prototype],
    resolving the file name throws when the override of that function is
    read; so do reading, writing and injecting for that name, before they
    touch the world, and a capture for that name is rejected with the same
    error. For an inherited name such as [toString] nothing is thrown: the
    default file name is returned. *)
Theorem undeclared_function_throws (this : Plugin) (functionName : string) :
  get (functions (service (serverless this))) functionName = None ->
  (inherits functionName = false ->
     getEnvFileName this functionName = Throw (TypeError "custom")
     ∧ (forall w,
          getCFFileVars parseFile this functionName w =
            Throw (TypeError "custom"))
     ∧ (forall resources w,
          createCFFile this functionName resources w =
            (w, Throw (TypeError "custom")))
     ∧ (forall o w,
          options this = Some o -> opt_function o = functionName ->
          beforeLocalInvoke parseFile this w = (w, Throw (TypeError "custom")))
     ∧ (forall stackName details w,
          lambda_getFunctionConfiguration this
            (stackName +:+ "-" +:+ functionName) = Resolved details ->
          exists w',
            captureFunction this stackName functionName w =
              (w', Rejected (TypeError "custom"))
            ∧ files w' = files w ∧ process_env w' = process_env w))
  ∧ (inherits functionName = true ->
     getEnvFileName this functionName =
       Ok (defaultFileName (getRegion this) (getStage this) functionName)).
Proof.
  intros Hundeclared. split.
  - intros Hown.
    assert (Hname : getEnvFileName this functionName
                    = Throw (TypeError "custom"))
      by (unfold getEnvFileName; by rewrite Hundeclared, Hown).
    split; [done|]. split; [|split; [|split]].
    + intros w. unfold getCFFileVars. by rewrite Hname.
    + intros resources w. by apply createCFFile_undeclared.
    + intros o w Hopt <-. unfold beforeLocalInvoke, bind, lift.
      by rewrite Hopt, Hname.
    + intros stackName details w Hfetch. unfold captureFunction.
      rewrite Hfetch, (createCFFile_undeclared _ _ _ _ _ Hname).
      eexists. split; [reflexivity|done].
  - intros Hinherited. unfold getEnvFileName.
    by rewrite Hundeclared, Hinherited.
Qed.

End ReaderFacts.

(** ** Writing, then reading *)

Lemma escape_without_newline (v : string) :
  Str.mem Str.newline v = false -> escapeNewlines v = v.
Proof.
  induction v as [|c r IH]; [done|]. simpl.
  destruct (Ascii.eqb c Str.newline); [done|]. intros H. by rewrite IH.
Qed.

(** Where the round trip does hold, with the reader of the spec: for a map
    of the data model whose values nowhere contain a backslash directly
    followed by the letter n, a write that completes and an immediate read of
    the same function yield the map that was written, values with newlines
    included; a value without newline is written as it is. *)
Theorem write_then_read (this : Plugin) (functionName : string)
    (env : Obj string) (w w' : World) (data : string) :
  EnvironmentMap env ->
  Forall (fun v => hasBackslashN v = false) env.*2 ->
  createCFFile this functionName env w = (w', Ok (Resolved data)) ->
  getCFFileVars Properties.readSync this functionName w' = Ok env
  ∧ (forall v, Str.mem Str.newline v = false -> escapeNewlines v = v).
Proof.
  intros Henv Hvals Hrun. split; [|apply escape_without_newline].
  apply createCFFile_resolved_file in Hrun as (fileName & Hname & -> & Hfile).
  unfold getCFFileVars, Fs.existsSync, Properties.readSync, Fs.readFileSync.
  rewrite Hname, Hfile. simpl.
  by rewrite propertiesData_concat, parse_concatRecords.
Qed.

Lemma write_then_read_witness :
  let this :=
    Sample.plugin None None [("hello", Sample.fn None)] Sample.noRemote in
  let env := [("FOO", "bar"); ("MULTI", "line1" +:+ nl +:+ "line2")] in
  exists w',
    createCFFile this "hello" env Sample.fresh =
      (w', Ok (Resolved ("FOO=bar" +:+ nl +:+ "MULTI=line1\nline2" +:+ nl)))
    ∧ getCFFileVars Properties.readSync this "hello" w' = Ok env.
Proof.
  intros this env.
  destruct (createCFFile this "hello" env Sample.fresh) as [w' r] eqn:Hrun.
  assert (Hr : r = Ok (Resolved
                         ("FOO=bar" +:+ nl +:+ "MULTI=line1\nline2" +:+ nl)))
    by (apply (f_equal snd) in Hrun; vm_compute in Hrun; by subst r).
  subst r. exists w'. split; [done|].
  refine (proj1 (write_then_read this "hello" env Sample.fresh w' _ _ _ Hrun)).
  - split; [|repeat constructor; discriminate].
    repeat constructor; rewrite ?elem_of_cons, ?elem_of_nil; intuition discriminate.
  - repeat constructor.
Defined.

(** With the reader of the spec, the value that holds a backslash and the
    letter n comes back with a newline in their place. *)
Lemma write_then_read_counterexample :
  let this :=
    Sample.plugin None None [("hello", Sample.fn None)] Sample.noRemote in
  let env := [("K", "a\nb")] in
  let env' := [("K", "a" +:+ nl +:+ "b")] in
  EnvironmentMap env ∧ env ≠ env'
  ∧ exists w',
      createCFFile this "hello" env Sample.fresh =
        (w', Ok (Resolved ("K=a\nb" +:+ nl)))
      ∧ createCFFile this "hello" env' Sample.fresh =
        (w', Ok (Resolved ("K=a\nb" +:+ nl)))
      ∧ getCFFileVars Properties.readSync this "hello" w' = Ok env'
      ∧ getCFFileVars Properties.readSync this "hello" w' ≠ Ok env.
Proof.
  intros this env env'.
  split.
  { split; [|repeat constructor; discriminate].
    repeat constructor. rewrite elem_of_nil. tauto. }
  split; [discriminate|].
  destruct (createCFFile this "hello" env Sample.fresh) as [w' r] eqn:Hrun.
  exists w'.
  assert (Hrun' : createCFFile this "hello" env' Sample.fresh = (w', r))
    by (rewrite <- Hrun; vm_compute; reflexivity).
  assert (Hr : r = Ok (Resolved ("K=a\nb" +:+ nl)))
    by (apply (f_equal snd) in Hrun; vm_compute in Hrun; by subst r).
  subst r. split; [done|]. split; [done|].
  assert (Hread : getCFFileVars Properties.readSync this "hello" w' = Ok env').
  { apply (f_equal fst) in Hrun. simpl in Hrun. subst w'.
    vm_compute. reflexivity. }
  split; [done|]. rewrite Hread. discriminate.
Qed.

(** The writer escapes the newline and leaves the backslash as it is, so a
    backslash followed by n and a newline are written alike, wherever they
    stand in a value. *)
Lemma escapeNewlines_conflates (a b : string) :
  escapeNewlines (a +:+ "\n" +:+ b) = escapeNewlines (a +:+ nl +:+ b).
Proof.
  induction a as [|c a IH]; [done|].
  by rewrite !(append_cons c a), !escape_cons, IH.
Qed.

(** C1 (defect of the code): the round trip fails for the map whose value is
    a, backslash, n, b. [createCFFile] writes it exactly as it writes the map
    whose value has a newline between a and b: the same text, the same file,
    the same world. Whatever reads the file back cannot return both maps, so
    for one of the two a write followed by a read does not yield the map
    that was written. *)
Theorem write_conflates_backslash_n :
  let this :=
    Sample.plugin None None [("hello", Sample.fn None)] Sample.noRemote in
  let env := [("K", "a\nb")] in
  let env' := [("K", "a" +:+ nl +:+ "b")] in
  EnvironmentMap env ∧ EnvironmentMap env' ∧ env ≠ env'
  ∧ propertiesData env = propertiesData env'
  ∧ exists w',
      createCFFile this "hello" env Sample.fresh =
        (w', Ok (Resolved ("K=a\nb" +:+ nl)))
      ∧ createCFFile this "hello" env' Sample.fresh =
        (w', Ok (Resolved ("K=a\nb" +:+ nl)))
      ∧ files w' !! "/proj/.serverless-env-local/.us-east-1_dev_hello" =
        Some (File ("K=a\nb" +:+ nl))
      ∧ forall parseFile,
          ~ (getCFFileVars parseFile this "hello" w' = Ok env
             ∧ getCFFileVars parseFile this "hello" w' = Ok env').
Proof.
  intros this env env'.
  assert (Hmap : forall v, EnvironmentMap [("K", v)]).
  { intros v. split; [|repeat constructor; discriminate].
    repeat constructor. rewrite elem_of_nil. tauto. }
  split; [apply Hmap|]. split; [apply Hmap|]. split; [discriminate|].
  split; [reflexivity|].
  destruct (createCFFile this "hello" env Sample.fresh) as [w' r] eqn:Hrun.
  exists w'.
  assert (Hrun' : createCFFile this "hello" env' Sample.fresh = (w', r))
    by (rewrite <- Hrun; vm_compute; reflexivity).
  assert (Hr : r = Ok (Resolved ("K=a\nb" +:+ nl)))
    by (apply (f_equal snd) in Hrun; vm_compute in Hrun; by subst r).
  subst r. split; [done|]. split; [done|]. split.
  - apply (f_equal fst) in Hrun. simpl in Hrun. subst w'.
    vm_compute. reflexivity.
  - intros parseFile [Hread Hread']. rewrite Hread in Hread'. discriminate.
Qed.

(** ** Instances on the sample project *)

Lemma read_missing_file_is_empty_witness :
  let this :=
    Sample.plugin None None [("hello", Sample.fn None)] Sample.noRemote in
  getEnvFileName this "hello" = Ok ".us-east-1_dev_hello"
  ∧ files Sample.fresh
      !! fullName (getEnvDirectory this) ".us-east-1_dev_hello" = None
  ∧ getCFFileVars Properties.readSync this "hello" Sample.fresh = Ok [].
Proof.
  intros this.
  assert (Hname : getEnvFileName this "hello" = Ok ".us-east-1_dev_hello")
    by reflexivity.
  assert (Hmissing : files Sample.fresh
            !! fullName (getEnvDirectory this) ".us-east-1_dev_hello" = None)
    by (vm_compute; reflexivity).
  split; [exact Hname|]. split; [exact Hmissing|].
  exact (read_missing_file_is_empty Properties.readSync this "hello" _
           Sample.fresh Hname Hmissing).
Defined.

Lemma inject_sets_every_entry_witness :
  let this :=
    Sample.plugin (Sample.invoke "hello") None [("hello", Sample.fn None)]
      Sample.noRemote in
  exists w',
    beforeLocalInvoke Properties.readSync this Sample.captured = (w', Ok ())
    ∧ process_env w' !! "FOO" = Some "bar"
    ∧ process_env w' !! "MULTI" = Some ("line1" +:+ nl +:+ "line2")
    ∧ process_env w' !! "HOME" = Some "/root".
Proof.
  intros this.
  assert (Hread : getCFFileVars Properties.readSync this "hello" Sample.captured =
                  Ok [("FOO", "bar"); ("MULTI", "line1" +:+ nl +:+ "line2")])
    by (vm_compute; reflexivity).
  destruct (inject_sets_every_entry Properties.readSync this _ Sample.captured _
              eq_refl Hread)
    as (w' & Hrun & Hset & Hother & _).
  - repeat constructor; rewrite ?elem_of_cons, ?elem_of_nil;
      intuition discriminate.
  - exists w'. split; [exact Hrun|].
    split; [apply Hset; rewrite !elem_of_cons; tauto|].
    split; [apply Hset; rewrite !elem_of_cons; tauto|].
    rewrite Hother; [vm_compute; reflexivity|].
    simpl. rewrite !elem_of_cons, elem_of_nil. intuition discriminate.
Defined.

Lemma undeclared_function_throws_witness :
  let this :=
    Sample.plugin (Sample.invoke "ghost") None [("hello", Sample.fn None)]
      Sample.noRemote in
  get (functions (service (serverless this))) "ghost" = None
  ∧ inherits "ghost" = false
  ∧ getEnvFileName this "ghost" = Throw (TypeError "custom")
  ∧ beforeLocalInvoke Properties.readSync this Sample.captured =
      (Sample.captured, Throw (TypeError "custom")).
Proof.
  intros this.
  destruct (proj1 (undeclared_function_throws Properties.readSync this "ghost"
                     eq_refl) eq_refl)
    as (Hname & _ & _ & Hinject & _).
  split; [reflexivity|]. split; [reflexivity|]. split; [exact Hname|].
  exact (Hinject _ Sample.captured eq_refl eq_refl).
Defined.

(** C10, as stated, fails: [toString] is no key of the declared functions,
    yet its file name resolves to the default name and an injection for it
    returns normally, injecting nothing. *)
Lemma undeclared_function_counterexample :
  let this :=
    Sample.plugin (Sample.invoke "toString") None [("hello", Sample.fn None)]
      Sample.noRemote in
  keys (functions (service (serverless this))) = ["hello"]
  ∧ get (functions (service (serverless this))) "toString" = None
  ∧ getEnvFileName this "toString" = Ok ".us-east-1_dev_toString"
  ∧ (forall parseFile,
       beforeLocalInvoke parseFile this Sample.fresh =
         (log ("[serverless-env-local] Pulling in env variables from "
               +:+ "/proj/.serverless-env-local/.us-east-1_dev_toString")
            Sample.fresh, Ok ())).
Proof.
  intros this. split; [reflexivity|]. split; [reflexivity|].
  split; [reflexivity|]. intros parseFile. vm_compute. reflexivity.
Qed.

(** ** Capturing: one pipeline per function *)

Section Capture.

Variable this : Plugin.
Variable stackName : string.




Lemma captureAll_length (names : list string) (w : World) :
  length (captureAll this stackName names w).2 = length names.
Proof.
  revert w. induction names as [|f rest IH]; intros w; [done|]. simpl.
  destruct (captureFunction this stackName f w) as [w1 p].
  specialize (IH w1).
  destruct (captureAll this stackName rest w1) as [w2 ps]. simpl in *.
  by rewrite IH.
Qed.

(** The pipeline of the [i]-th name runs in the world the first [i]
    pipelines left, whatever their outcomes were. *)
Lemma captureAll_split (names : list string) (w w' : World)
    (ps : list (Promise string)) (i : nat) (f : string) :
  captureAll this stackName names w = (w', ps) ->
  names !! i = Some f ->
  exists wi wi' p,
    captureAll this stackName (take i names) w = (wi, take i ps)
    ∧ ps !! i = Some p
    ∧ captureFunction this stackName f wi = (wi', p)
    ∧ captureAll this stackName (drop (S i) names) wi' = (w', drop (S i) ps).
Proof.
  revert w ps i. induction names as [|g rest IH]; intros w ps i Hrun Hi.
  - by rewrite lookup_nil in Hi.
  - simpl in Hrun.
    destruct (captureFunction this stackName g w) as [w1 p] eqn:Hg.
    destruct (captureAll this stackName rest w1) as [w2 ps'] eqn:Hrest.
    injection Hrun as <- <-.
    destruct i as [|i]; simpl in Hi.
    + injection Hi as <-. exists w, w1, p. by rewrite ?drop_0.
    + destruct (IH w1 ps' i Hrest Hi) as (wi & wi' & q & Htake & Hq & Hf & Hdrop).
      exists wi, wi', q. simpl. by rewrite Hg, Htake.
Qed.


(** Files are never removed by a write. *)
Lemma logAndWrite_keeps_files (path fileName : string) (resources : Obj string)
    (w w' : World) (r : result (Promise string)) (p c : string) :
  logAndWrite path fileName resources w = (w', r) ->
  files w !! p = Some (File c) ->
  exists c', files w' !! p = Some (File c').
Proof.
  unfold logAndWrite, Fs.writeFile. simpl. intros Hrun Hp.
  destruct (files w !! fullName path fileName) as [[c0|m0]|];
    destruct (files w !! Fs.dirname (fullName path fileName)) as [[c1|m1]|];
    injection Hrun as <- _; simpl; eauto;
    (destruct (decide (fullName path fileName = p)) as [->|Hne];
     [rewrite lookup_insert_eq | rewrite lookup_insert_ne by done]; eauto).
Qed.

Lemma createCFFile_keeps_files (functionName : string) (resources : Obj string)
    (w w' : World) (r : result (Promise string)) (p c : string) :
  createCFFile this functionName resources w = (w', r) ->
  files w !! p = Some (File c) ->
  exists c', files w' !! p = Some (File c').
Proof.
  intros Hrun Hp.
  destruct (getEnvFileName this functionName) as [fileName|e] eqn:Hname.
  - rewrite (createCFFile_cases _ _ _ _ _ Hname) in Hrun. cbv zeta in Hrun.
    destruct (files w !! getEnvDirectory this) as [[c0|m0]|] eqn:Hdir.
    + injection Hrun as <- _. eauto.
    + eapply logAndWrite_keeps_files; eauto.
    + destruct (files w !! Fs.dirname (getEnvDirectory this)) as [[c1|m1]|].
      * injection Hrun as <- _. eauto.
      * eapply logAndWrite_keeps_files; [exact Hrun|]. simpl.
        rewrite lookup_insert_ne; [exact Hp|]. intros <-. congruence.
      * injection Hrun as <- _. eauto.
  - rewrite (createCFFile_undeclared _ _ _ _ _ Hname) in Hrun.
    injection Hrun as <- _. eauto.
Qed.

Lemma captureFunction_keeps_files (functionName : string) (w w' : World)
    (q : Promise string) (p c : string) :
  captureFunction this stackName functionName w = (w', q) ->
  files w !! p = Some (File c) ->
  exists c', files w' !! p = Some (File c').
Proof.
  unfold captureFunction. intros Hrun Hp.
  destruct (lambda_getFunctionConfiguration this _) as [details|err].
  - destruct (createCFFile this functionName _ w) as [wc r] eqn:Hwrite.
    destruct (createCFFile_keeps_files _ _ _ _ _ _ _ Hwrite Hp) as [c' Hc'].
    destruct (settle r); injection Hrun as <- _; eauto.
  - injection Hrun as <- _. eauto.
Qed.

Lemma captureAll_keeps_files (names : list string) (w w' : World)
    (ps : list (Promise string)) (p c : string) :
  captureAll this stackName names w = (w', ps) ->
  files w !! p = Some (File c) ->
  exists c', files w' !! p = Some (File c').
Proof.
  revert w ps c. induction names as [|f rest IH]; intros w ps c Hrun Hp.
  - injection Hrun as <- _. eauto.
  - simpl in Hrun.
    destruct (captureFunction this stackName f w) as [w1 q] eqn:Hf.
    destruct (captureAll this stackName rest w1) as [w2 ps'] eqn:Hrest.
    injection Hrun as <- _.
    destruct (captureFunction_keeps_files _ _ _ _ _ _ Hf Hp) as [c1 Hc1].
    eapply IH; eauto.
Qed.

(** A pipeline that resolved has written the file of its function. *)
Lemma captureFunction_resolved (functionName : string) (w w' : World)
    (data : string) :
  captureFunction this stackName functionName w = (w', Resolved data) ->
  exists fileName,
    getEnvFileName this functionName = Ok fileName
    ∧ files w' !! fullName (getEnvDirectory this) fileName = Some (File data).
Proof.
  unfold captureFunction. intros Hrun.
  destruct (lambda_getFunctionConfiguration this _) as [details|err]; [|done].
  destruct (createCFFile this functionName _ w) as [wc r] eqn:Hwrite.
  destruct r as [[d|e]|e]; simpl in Hrun; try done.
  injection Hrun as <- <-.
  apply createCFFile_resolved_file in Hwrite as (fileName & Hname & _ & Hfile).
  eauto.
Qed.

End Capture.

(** * Further properties of the code *)

(** ** The store directory *)

Lemma prefix_append (p s : string) : String.prefix p (p +:+ s) = true.
Proof.
  induction p as [|c p IH]; [by destruct s|]. rewrite append_cons. simpl.
  by destruct (ascii_dec c c).
Qed.

Lemma substring_skip (a b : string) (m : nat) :
  String.substring (String.length a) m (a +:+ b) = String.substring 0 m b.
Proof. induction a as [|c a IH]; [done|]. by rewrite append_cons. Qed.

Lemma substring_all (b : string) :
  String.substring 0 (String.length b) b = b.
Proof. induction b as [|c b IH]; [done|]. simpl. by rewrite IH. Qed.

Lemma replace_first_eq (pat rep s : string) :
  Str.replace_first pat rep s =
  if String.prefix pat s
  then rep +:+ String.substring (String.length pat)
                 (String.length s - String.length pat) s
  else match s with
       | EmptyString => EmptyString
       | String d r => String d (Str.replace_first pat rep r)
       end.
Proof. by destruct s. Qed.

Lemma occurs_eq (pat s : string) :
  occurs pat s =
  if String.prefix pat s then true
  else match s with
       | EmptyString => false
       | String _ r => occurs pat r
       end.
Proof. by destruct s. Qed.

(** Without an occurrence of the pattern nothing is replaced. *)
Lemma replace_first_absent (pat rep s : string) :
  occurs pat s = false -> Str.replace_first pat rep s = s.
Proof.
  induction s as [|c s IH]; rewrite occurs_eq, replace_first_eq;
    destruct (String.prefix pat _); try done.
  intros H. by rewrite IH.
Qed.

(** The pattern in front is the one that is replaced. *)
Lemma replace_first_here (pat rep s : string) :
  Str.replace_first pat rep (pat +:+ s) = rep +:+ s.
Proof.
  rewrite replace_first_eq, prefix_append, substring_skip, append_length.
  replace (String.length pat + String.length s - String.length pat)
    with (String.length s) by lia.
  by rewrite substring_all.
Qed.

(** A prefix of a concatenation lies in the first part or runs over its
    end. *)
Lemma prefix_append_inv (p a b : string) :
  String.prefix p (a +:+ b) = true ->
  String.prefix p a = true
  ∨ exists p2, p2 ≠ EmptyString ∧ p = a +:+ p2 ∧ String.prefix p2 b = true.
Proof.
  revert a. induction p as [|x p IH]; intros a H.
  - left. by destruct a.
  - destruct a as [|y a].
    + right. by exists (String x p).
    + rewrite append_cons in H. simpl in *.
      destruct (ascii_dec x y) as [->|]; [|done].
      destruct (IH a H) as [Hp | (p2 & Hne & -> & Hp2)]; [by left|].
      right. by exists p2.
Qed.

(** No proper end of the segment is a beginning of it. *)
Lemma webpackSegment_no_border (a p2 rest : string) :
  a ≠ EmptyString -> p2 ≠ EmptyString -> webpackSegment = a +:+ p2 ->
  String.prefix p2 (webpackSegment +:+ rest) = false.
Proof.
  unfold webpackSegment. intros Ha Hp2 Heq.
  destruct a as [|c a]; [done|]. clear Ha.
  rewrite append_cons in Heq. injection Heq as <- Heq.
  repeat (destruct a as [|c a];
          [rewrite append_empty in Heq; by subst p2
          |rewrite append_cons in Heq; injection Heq as <- Heq]).
  destruct a; [rewrite append_empty in Heq|rewrite append_cons in Heq; done].
  by subst p2.
Qed.

(** In front of the segment, a text without it adds no earlier occurrence. *)
Lemma replace_first_webpack (root rest : string) :
  occurs webpackSegment root = false ->
  Str.replace_first webpackSegment EmptyString
    (root +:+ webpackSegment +:+ rest) = root +:+ rest.
Proof.
  induction root as [|c root IH]; intros Hroot.
  - rewrite !append_empty. by rewrite replace_first_here.
  - rewrite occurs_eq in Hroot.
    destruct (String.prefix webpackSegment (String c root)) eqn:Hpre; [done|].
    rewrite replace_first_eq.
    destruct (String.prefix webpackSegment
                (String c root +:+ webpackSegment +:+ rest)) eqn:Hpre'.
    + apply prefix_append_inv in Hpre' as [H | (p2 & Hne & Heq & H)];
        [congruence|].
      by rewrite (webpackSegment_no_border (String c root) p2 rest) in H.
    + rewrite !append_cons. by rewrite IH.
Qed.

(** X1: when the service path holds no segment [/.webpack/service], the
    store directory is the service path, a slash and the directory name: the
    custom name when one is configured and not empty, else
    [.serverless-env-local]. *)
Theorem directory_of_plain_service_path (this : Plugin) :
  occurs webpackSegment (servicePath (config (serverless this))) = false ->
  getEnvDirectory this =
    servicePath (config (serverless this)) +:+ "/" +:+ directoryName this
  ∧ (forall d, custom (service (serverless this)) ≫= (.!! "resource-output-dir")
               = Some d -> d ≠ EmptyString -> directoryName this = d)
  ∧ (truthy (custom (service (serverless this))
             ≫= (.!! "resource-output-dir")) = None ->
     directoryName this = ".serverless-env-local").
Proof.
  intros Habsent. unfold getEnvDirectory, directoryName. cbv zeta.
  fold webpackSegment. rewrite replace_first_absent by done.
  split; [done|]. split.
  - intros d -> Hd. by apply or_else_truthy.
  - intros Hnone. by apply or_else_falsy.
Qed.

(** X2: when the service path is a project root followed by the segment
    [/.webpack/service] and a rest, and the root holds no such segment, the
    store directory lies under the root and the rest: only that first
    segment is removed. *)
Theorem directory_of_webpack_service_path (this : Plugin)
    (root rest : string) :
  servicePath (config (serverless this)) = root +:+ webpackSegment +:+ rest ->
  occurs webpackSegment root = false ->
  getEnvDirectory this = (root +:+ rest) +:+ "/" +:+ directoryName this.
Proof.
  intros Hpath Hroot. unfold getEnvDirectory, directoryName. cbv zeta.
  fold webpackSegment. by rewrite Hpath, replace_first_webpack.
Qed.


Lemma directory_of_plain_service_path_witness :
  let this :=
    Sample.plugin None (Some "out") [("hello", Sample.fn None)]
      Sample.noRemote in
  occurs webpackSegment (servicePath (config (serverless this))) = false
  ∧ getEnvDirectory this = "/proj/out".
Proof.
  intros this. split; [reflexivity|].
  destruct (directory_of_plain_service_path this eq_refl) as (Hdir & Hcustom & _).
  rewrite Hdir, (Hcustom "out"); [reflexivity|reflexivity|discriminate].
Defined.

Lemma directory_of_webpack_service_path_witness :
  let this :=
    {| options := None;
       serverless :=
         {| config := {| servicePath := "/proj/.webpack/service";
                         config_stage := None; config_region := None |};
            service := {| service_name := "svc"; provider_stage := None;
                          provider_region := None; custom := None;
                          functions := [] |} |};
       lambda_getFunctionConfiguration := Sample.noRemote |} in
  getEnvDirectory this = "/proj/.serverless-env-local".
Proof.
  intros this.
  exact (directory_of_webpack_service_path this "/proj" EmptyString
           eq_refl eq_refl).
Defined.

(** ** Writes that fail, writes that are repeated *)

Lemma logAndWrite_run (path fileName : string) (resources : Obj string)
    (w w' : World) (r : result (Promise string)) :
  logAndWrite path fileName resources w = (w', r) ->
  process_env w' = process_env w
  ∧ extends (cli_log w) (cli_log w')
  ∧ ((exists e, r = Ok (Rejected e)) ∧ files w' = files w
     ∨ r = Ok (Resolved (propertiesData resources))
       ∧ files w' =
           <[fullName path fileName := File (propertiesData resources)]>
             (files w)
       ∧ (exists m, files w !! Fs.dirname (fullName path fileName)
                    = Some (Dir m))).
Proof.
  unfold logAndWrite, Fs.writeFile, extends. simpl.
  destruct (files w !! fullName path fileName) as [[c|m]|];
    destruct (files w !! Fs.dirname (fullName path fileName)) as [[c'|m']|];
    intros [= <- <-]; simpl; (split; [done|]); (split; [eauto|]); eauto 10.
Qed.

(** A write changes the file system at its own file and at the store
    directory only, whatever its outcome. *)
Lemma createCFFile_frame (this : Plugin) (functionName : string)
    (resources : Obj string) (w w' : World) (r : result (Promise string))
    (p : string) :
  createCFFile this functionName resources w = (w', r) ->
  p ≠ getEnvDirectory this ->
  (forall fileName, getEnvFileName this functionName = Ok fileName ->
     p ≠ fullName (getEnvDirectory this) fileName) ->
  files w' !! p = files w !! p.
Proof.
  intros Hrun Hdir Hfile.
  destruct (getEnvFileName this functionName) as [fileName|e] eqn:Hname.
  - specialize (Hfile fileName eq_refl).
    rewrite (createCFFile_cases _ _ _ _ _ Hname) in Hrun. cbv zeta in Hrun.
    destruct (files w !! getEnvDirectory this) as [[c0|m0]|] eqn:Hd.
    + by injection Hrun as <- _.
    + apply logAndWrite_run in Hrun as (_ & _ & [[_ ->] | (_ & -> & _)]);
        [done|]. by rewrite lookup_insert_ne.
    + destruct (files w !! Fs.dirname (getEnvDirectory this)) as [[c1|m1]|].
      * by injection Hrun as <- _.
      * apply logAndWrite_run in Hrun as (_ & _ & [[_ ->] | (_ & -> & _)]);
          simpl; by rewrite ?lookup_insert_ne.
      * by injection Hrun as <- _.
  - rewrite (createCFFile_undeclared _ _ _ _ _ Hname) in Hrun.
    by injection Hrun as <- _.
Qed.

(** X3: for a store directory whose path is in normal form and a file name
    that is one path component, a write that throws leaves the whole world as
    it was, and a write, whatever its outcome, touches no path other than
    its file and the store directory and leaves the process environment
    alone. *)
Theorem write_failure_is_contained (this : Plugin) (functionName : string)
    (resources : Obj string) (w w' : World) (r : result (Promise string)) :
  createCFFile this functionName resources w = (w', r) ->
  normalPath (getEnvDirectory this) = true ->
  (forall fileName, getEnvFileName this functionName = Ok fileName ->
     plainName fileName) ->
  (forall e, r = Throw e -> w' = w)
  ∧ (forall p, p ≠ getEnvDirectory this ->
       (forall fileName, getEnvFileName this functionName = Ok fileName ->
          p ≠ fullName (getEnvDirectory this) fileName) ->
       files w' !! p = files w !! p)
  ∧ process_env w' = process_env w.
Proof.
  intros Hrun _ _. split; [|split].
  - intros e ->.
    destruct (getEnvFileName this functionName) as [fileName|e'] eqn:Hname.
    + rewrite (createCFFile_cases _ _ _ _ _ Hname) in Hrun. cbv zeta in Hrun.
      destruct (files w !! getEnvDirectory this) as [[c0|m0]|].
      * by injection Hrun as <-.
      * apply logAndWrite_run in Hrun as (_ & _ & [[[? ?] _] | (? & _)]); done.
      * destruct (files w !! Fs.dirname (getEnvDirectory this)) as [[c1|m1]|];
          [by injection Hrun as <- | | by injection Hrun as <-].
        apply logAndWrite_run in Hrun as (_ & _ & [[[? ?] _] | (? & _)]); done.
    + rewrite (createCFFile_undeclared _ _ _ _ _ Hname) in Hrun.
      by injection Hrun as <-.
  - intros p. by apply (createCFFile_frame this functionName resources w w' r).
  - destruct (getEnvFileName this functionName) as [fileName|e'] eqn:Hname;
      [|rewrite (createCFFile_undeclared _ _ _ _ _ Hname) in Hrun;
        by injection Hrun as <- _].
    rewrite (createCFFile_cases _ _ _ _ _ Hname) in Hrun. cbv zeta in Hrun.
    destruct (files w !! getEnvDirectory this) as [[c0|m0]|];
      [by injection Hrun as <- _ | by apply logAndWrite_run in Hrun as (? & _) |].
    destruct (files w !! Fs.dirname (getEnvDirectory this)) as [[c1|m1]|];
      [by injection Hrun as <- _ | | by injection Hrun as <- _].
    by apply logAndWrite_run in Hrun as (? & _).
Qed.

Lemma write_failure_is_contained_witness :
  let this :=
    Sample.plugin None (Some "out/env") [("hello", Sample.fn None)]
      Sample.noRemote in
  exists w' e,
    createCFFile this "hello" [("FOO", "bar")] Sample.fresh = (w', Throw e)
    ∧ w' = Sample.fresh.
Proof.
  intros this.
  destruct (createCFFile this "hello" [("FOO", "bar")] Sample.fresh)
    as [w' r] eqn:Hrun.
  assert (Hr : r = Throw (SystemError "ENOENT" "/proj/out/env"))
    by (apply (f_equal snd) in Hrun; vm_compute in Hrun; by subst r).
  exists w', (SystemError "ENOENT" "/proj/out/env"). subst r.
  split; [reflexivity|].
  refine (proj1 (write_failure_is_contained this "hello" _ _ _ _ Hrun
                   eq_refl _) _ eq_refl).
  intros fileName Hname. vm_compute in Hname. injection Hname as <-.
  repeat split; discriminate.
Defined.

Lemma cut_last_spec (c : ascii) (s a b : string) :
  Str.cut_last c s = Some (a, b) -> s = a +:+ String c b.
Proof.
  revert a. induction s as [|x s IH]; intros a; simpl; [done|].
  destruct (Str.cut_last c s) as [[a' b']|].
  - intros [= <- <-]. rewrite append_cons. by rewrite <- (IH a').
  - destruct (Ascii.eqb x c) eqn:Hx; [|done].
    apply Ascii.eqb_eq in Hx as ->. by intros [= <- <-].
Qed.

(** The directory part of a file of the store is not the file itself. *)
Lemma dirname_fullName_neq (path fileName : string) :
  path ≠ EmptyString ->
  Fs.dirname (fullName path fileName) ≠ fullName path fileName.
Proof.
  intros Hpath. unfold Fs.dirname.
  assert (Hlen : 2 <= String.length (fullName path fileName)).
  { unfold fullName. rewrite !append_length. destruct path; [done|]. simpl. lia. }
  destruct (Str.cut_last Str.slash (fullName path fileName))
    as [[d b]|] eqn:Hcut.
  - apply cut_last_spec in Hcut.
    destruct d as [|x d].
    + intros Heq. rewrite <- Heq in Hlen. simpl in Hlen. lia.
    + intros Heq. apply (f_equal String.length) in Hcut.
      rewrite append_length, <- Heq in Hcut. simpl in Hcut. lia.
  - intros Heq. rewrite <- Heq in Hlen. simpl in Hlen. lia.
Qed.

(** X4: once a write for a function has succeeded, any further write for it
    succeeds too and replaces the whole content of its file; writing the
    same map again leaves the file system as it is. *)
Theorem rewrite_after_success (this : Plugin) (functionName : string)
    (env1 env2 : Obj string) (w w1 : World) (data1 : string) :
  createCFFile this functionName env1 w = (w1, Ok (Resolved data1)) ->
  exists w2 fileName,
    getEnvFileName this functionName = Ok fileName
    ∧ createCFFile this functionName env2 w1 =
        (w2, Ok (Resolved (propertiesData env2)))
    ∧ files w2 =
        <[fullName (getEnvDirectory this) fileName :=
            File (propertiesData env2)]> (files w1)
    ∧ (env2 = env1 -> files w2 = files w1).
Proof.
  intros Hrun.
  destruct (getEnvFileName this functionName) as [fileName|e] eqn:Hname;
    [| by rewrite (createCFFile_undeclared _ _ _ _ _ Hname) in Hrun ].
  set (path := getEnvDirectory this).
  set (full := fullName path fileName).
  assert (Hpath : path ≠ EmptyString) by apply getEnvDirectory_nonempty.
  assert (Hstate : (exists m, files w1 !! path = Some (Dir m))
                   ∧ (exists m, files w1 !! Fs.dirname full = Some (Dir m))
                   ∧ files w1 !! full = Some (File (propertiesData env1))).
  { rewrite (createCFFile_cases _ _ _ _ _ Hname) in Hrun. cbv zeta in Hrun.
    fold path in Hrun.
    destruct (files w !! path) as [[c0|m0]|] eqn:Hd; [done| |].
    - apply logAndWrite_run in Hrun
        as (_ & _ & [[[? ?] _] | (_ & Hfiles & m & Hparent)]); [done|].
      fold full in Hfiles, Hparent. simpl in Hparent. rewrite Hfiles.
      split; [|split].
      + exists m0. rewrite lookup_insert_ne; [done|]. apply fullName_neq.
      + exists m. rewrite lookup_insert_ne; [done|].
        intros Heq. by apply (dirname_fullName_neq path fileName).
      + apply lookup_insert_eq.
    - destruct (files w !! Fs.dirname path) as [[c1|m1]|]; [done| |done].
      apply logAndWrite_run in Hrun
        as (_ & _ & [[[? ?] _] | (_ & Hfiles & m & Hparent)]); [done|].
      fold full in Hfiles, Hparent. simpl in Hfiles, Hparent. rewrite Hfiles.
      split; [|split].
      + exists mode_0o700. rewrite lookup_insert_ne by apply fullName_neq.
        apply lookup_insert_eq.
      + exists m. rewrite lookup_insert_ne; [done|].
        intros Heq. by apply (dirname_fullName_neq path fileName).
      + apply lookup_insert_eq. }
  destruct Hstate as ([m Hdir] & [m' Hparent] & Hfile).
  destruct (logAndWrite_succeeds path fileName env2 w1 m') as (w2 & Hrun2 & Hfiles2).
  - exact Hparent.
  - intros m''. fold full. by rewrite Hfile.
  - exists w2, fileName. split; [done|].
    rewrite (createCFFile_cases _ _ _ _ _ Hname). cbv zeta. fold path.
    rewrite Hdir. split; [done|]. split; [done|].
    intros ->. rewrite Hfiles2. by apply insert_id.
Qed.

Lemma rewrite_after_success_witness :
  let this :=
    Sample.plugin None None [("hello", Sample.fn None)] Sample.noRemote in
  exists w1 w2,
    createCFFile this "hello" [("FOO", "bar"); ("OLD", "1")] Sample.fresh
      = (w1, Ok (Resolved ("FOO=bar" +:+ nl +:+ "OLD=1" +:+ nl)))
    ∧ createCFFile this "hello" [("FOO", "baz")] w1
      = (w2, Ok (Resolved (propertiesData [("FOO", "baz")])))
    ∧ files w2 !! "/proj/.serverless-env-local/.us-east-1_dev_hello"
      = Some (File ("FOO=baz" +:+ nl)).
Proof.
  intros this.
  destruct (createCFFile this "hello" [("FOO", "bar"); ("OLD", "1")]
              Sample.fresh) as [w1 r] eqn:Hrun.
  assert (Hr : r = Ok (Resolved ("FOO=bar" +:+ nl +:+ "OLD=1" +:+ nl)))
    by (apply (f_equal snd) in Hrun; vm_compute in Hrun; by subst r).
  subst r.
  destruct (rewrite_after_success this "hello" _ [("FOO", "baz")] _ _ _ Hrun)
    as (w2 & fileName & Hname & Hrun2 & Hfiles & _).
  exists w1, w2. split; [reflexivity|]. split; [exact Hrun2|].
  vm_compute in Hname. injection Hname as <-.
  rewrite Hfiles. apply lookup_insert_eq.
Defined.

(** ** What capture and injection leave alone *)

Lemma extends_refl (l : list string) : extends l l.
Proof. exists []. by rewrite app_nil_r. Qed.

Lemma extends_trans (l1 l2 l3 : list string) :
  extends l1 l2 -> extends l2 l3 -> extends l1 l3.
Proof. intros [a ->] [b ->]. exists (a ++ b). by rewrite app_assoc. Qed.

Lemma extends_log (message : string) (w : World) :
  extends (cli_log w) (cli_log (log message w)).
Proof. by exists [message]. Qed.

(** A write keeps the environment, the log lines and the directories. *)
Lemma createCFFile_keeps (this : Plugin) (functionName : string)
    (resources : Obj string) (w w' : World) (r : result (Promise string)) :
  createCFFile this functionName resources w = (w', r) ->
  process_env w' = process_env w
  ∧ extends (cli_log w) (cli_log w')
  ∧ (forall p m, files w !! p = Some (Dir m) -> files w' !! p = Some (Dir m)).
Proof.
  intros Hrun.
  destruct (getEnvFileName this functionName) as [fileName|e] eqn:Hname.
  - rewrite (createCFFile_cases _ _ _ _ _ Hname) in Hrun. cbv zeta in Hrun.
    assert (Hwrite : forall v v' : World,
      logAndWrite (getEnvDirectory this) fileName resources v = (v', r) ->
      process_env v' = process_env v ∧ extends (cli_log v) (cli_log v')
      ∧ (forall p m, files v !! p = Some (Dir m) -> files v' !! p = Some (Dir m))).
    { intros v v' Hv. unfold logAndWrite, Fs.writeFile in Hv. simpl in Hv.
      destruct (files v !! fullName (getEnvDirectory this) fileName)
        as [[c|m0]|] eqn:Hfull;
        destruct (files v !! Fs.dirname (fullName (getEnvDirectory this) fileName))
          as [[c'|m']|];
        injection Hv as <- _; simpl; (split; [done|]);
        (split; [by eexists|]); try done;
        intros p m Hp; (rewrite lookup_insert_ne; [done|]); intros <-; congruence. }
    destruct (files w !! getEnvDirectory this) as [[c0|m0]|] eqn:Hd.
    + injection Hrun as <- _. split; [done|]. split; [apply extends_refl|done].
    + by apply Hwrite.
    + destruct (files w !! Fs.dirname (getEnvDirectory this)) as [[c1|m1]|].
      * injection Hrun as <- _. split; [done|]. split; [apply extends_refl|done].
      * apply Hwrite in Hrun as (Henv & Hlog & Hdirs). simpl in *.
        split; [done|]. split; [done|]. intros p m Hp. apply Hdirs.
        rewrite lookup_insert_ne; [done|]. intros <-. congruence.
      * injection Hrun as <- _. split; [done|]. split; [apply extends_refl|done].
  - rewrite (createCFFile_undeclared _ _ _ _ _ Hname) in Hrun.
    injection Hrun as <- _. split; [done|]. split; [apply extends_refl|done].
Qed.

Lemma captureFunction_keeps (this : Plugin) (stackName functionName : string)
    (w w' : World) (q : Promise string) :
  captureFunction this stackName functionName w = (w', q) ->
  process_env w' = process_env w
  ∧ extends (cli_log w) (cli_log w')
  ∧ (forall p m, files w !! p = Some (Dir m) -> files w' !! p = Some (Dir m)).
Proof.
  unfold captureFunction. intros Hrun.
  destruct (lambda_getFunctionConfiguration this _) as [details|err].
  - destruct (createCFFile this functionName _ w) as [wc r] eqn:Hwrite.
    apply createCFFile_keeps in Hwrite as (Henv & Hlog & Hdirs).
    destruct (settle r); injection Hrun as <- _; simpl;
      (split; [done|]); (split; [|done]); [done|].
    eapply extends_trans; [exact Hlog|apply extends_log].
  - injection Hrun as <- _. simpl. split; [done|].
    split; [apply extends_log|done].
Qed.

Lemma captureAll_keeps (this : Plugin) (stackName : string)
    (names : list string) (w w' : World) (ps : list (Promise string)) :
  captureAll this stackName names w = (w', ps) ->
  process_env w' = process_env w
  ∧ extends (cli_log w) (cli_log w')
  ∧ (forall p m, files w !! p = Some (Dir m) -> files w' !! p = Some (Dir m)).
Proof.
  revert w ps. induction names as [|f rest IH]; intros w ps Hrun.
  - injection Hrun as <- _. split; [done|]. split; [apply extends_refl|done].
  - simpl in Hrun.
    destruct (captureFunction this stackName f w) as [w1 q] eqn:Hf.
    destruct (captureAll this stackName rest w1) as [w2 ps'] eqn:Hrest.
    injection Hrun as <- _.
    apply captureFunction_keeps in Hf as (Henv & Hlog & Hdirs).
    apply IH in Hrest as (Henv' & Hlog' & Hdirs').
    split; [congruence|]. split; [by eapply extends_trans|]. auto.
Qed.

(** X5: a capture, whatever its outcome, leaves the process environment as
    it is, keeps every line of the log, every directory with its mode and
    every regular file (the content of a file may be replaced). *)
Theorem capture_keeps_environment_and_files (this : Plugin) (w : World) :
  process_env (afterDeploy this w).1 = process_env w
  ∧ extends (cli_log w) (cli_log (afterDeploy this w).1)
  ∧ (forall p m, files w !! p = Some (Dir m) ->
       files (afterDeploy this w).1 !! p = Some (Dir m))
  ∧ (forall p c, files w !! p = Some (File c) ->
       exists c', files (afterDeploy this w).1 !! p = Some (File c')).
Proof.
  unfold afterDeploy.
  destruct (captureAll this (getStackName this)
              (keys (functions (service (serverless this)))) w)
    as [w' ps] eqn:Hrun. simpl.
  destruct (captureAll_keeps _ _ _ _ _ _ Hrun) as (Henv & Hlog & Hdirs).
  do 3 (split; [done|]). intros p c Hp.
  by eapply captureAll_keeps_files.
Qed.

Section InjectFacts.

Variable parseFile : string -> gmap string Node -> result (Obj string).

(** X6: an injection never changes a file and keeps every line of the log;
    it returns normally exactly when the options are there and the read
    returns a map, and when it throws the process environment is as it
    was. *)
Theorem inject_keeps_files (this : Plugin) (w : World) :
  files (beforeLocalInvoke parseFile this w).1 = files w
  ∧ extends (cli_log w) (cli_log (beforeLocalInvoke parseFile this w).1)
  ∧ ((beforeLocalInvoke parseFile this w).2 = Ok () <->
     exists o envVars,
       options this = Some o
       ∧ getCFFileVars parseFile this (opt_function o) w = Ok envVars)
  ∧ (forall e, (beforeLocalInvoke parseFile this w).2 = Throw e ->
       process_env (beforeLocalInvoke parseFile this w).1 = process_env w).
Proof.
  unfold beforeLocalInvoke, bind, lift, tell, throw.
  destruct (options this) as [o|]; simpl.
  2:{ split; [done|]. split; [apply extends_refl|]. split; [|done].
      split; [done|]. by intros (o & envVars & ? & _). }
  pose proof (getCFFileVars_declared parseFile this (opt_function o) w)
    as Hdeclared.
  destruct (getEnvFileName this (opt_function o)) as [fileName|e] eqn:Hname;
    simpl.
  2:{ split; [done|]. split; [apply extends_refl|]. split; [|done].
      split; [done|]. intros (o' & envVars & [= <-] & Hread).
      by destruct (Hdeclared envVars Hread). }
  rewrite (getCFFileVars_files parseFile this (opt_function o) (log _ w) w
             eq_refl).
  destruct (getCFFileVars parseFile this (opt_function o) w)
    as [envVars|e] eqn:Hread; simpl.
  - destruct (injectAll_files envVars
                (log ("[serverless-env-local] Pulling in env variables from "
                      +:+ fullName (getEnvDirectory this) fileName) w))
      as [-> ->].
    split; [done|]. split; [apply extends_log|]. split; [|done].
    split; [|done]. intros _. by exists o, envVars.
  - split; [done|]. split; [apply extends_log|]. split; [|done].
    split; [done|]. intros (o' & envVars & [= <-] & Hread'). congruence.
Qed.

(** What an injection leaves in the environment: the later entry of a name
    wins over the earlier one and over what was there. *)
Lemma injectAll_env (envVars : Obj string) (w : World) :
  process_env (injectAll envVars w) =
    list_to_map (reverse envVars) ∪ process_env w.
Proof.
  revert w. induction envVars as [|[k v] rest IH]; intros w.
  - simpl. by rewrite (left_id_L ∅ (∪)).
  - simpl. rewrite IH. simpl. rewrite reverse_cons, list_to_map_app.
    rewrite insert_union_singleton_l.
    rewrite (assoc_L (∪) (list_to_map (reverse rest) : gmap string string)).
    simpl. by rewrite insert_empty.
Qed.

(** X7: injecting twice is injecting once: a second injection from the same
    files succeeds and leaves the process environment and the files as the
    first one left them. *)
Theorem inject_twice (this : Plugin) (w w1 : World) :
  beforeLocalInvoke parseFile this w = (w1, Ok ()) ->
  exists w2,
    beforeLocalInvoke parseFile this w1 = (w2, Ok ())
    ∧ process_env w2 = process_env w1
    ∧ files w2 = files w1.
Proof.
  intros Hrun.
  unfold beforeLocalInvoke, bind, lift, tell, throw in Hrun.
  destruct (options this) as [o|] eqn:Hopt; [|done]. simpl in Hrun.
  destruct (getEnvFileName this (opt_function o)) as [fileName|e] eqn:Hname;
    [|done]. simpl in Hrun.
  rewrite (getCFFileVars_files parseFile this (opt_function o) (log _ w) w
             eq_refl) in Hrun.
  destruct (getCFFileVars parseFile this (opt_function o) w)
    as [envVars|e] eqn:Hread; [|done].
  injection Hrun as <-.
  set (w0 := log _ w).
  assert (Hread1 : getCFFileVars parseFile this (opt_function o)
                     (injectAll envVars w0) = Ok envVars).
  { rewrite <- Hread. apply getCFFileVars_files.
    by destruct (injectAll_files envVars w0) as [-> _]. }
  destruct (beforeLocalInvoke_run parseFile this o _ envVars Hopt Hread1)
    as (fileName' & _ & Hrun2).
  eexists. split; [exact Hrun2|]. split.
  - rewrite injectAll_env. simpl. rewrite injectAll_env.
    rewrite (assoc_L (∪) (list_to_map (reverse envVars) : gmap string string)).
    by rewrite (idemp_L (∪) (list_to_map (reverse envVars) : gmap string string)).
  - destruct (injectAll_files envVars
                (log ("[serverless-env-local] Pulling in env variables from "
                      +:+ fullName (getEnvDirectory this) fileName')
                   (injectAll envVars w0))) as [-> _].
    done.
Qed.

End InjectFacts.

Lemma inject_twice_witness :
  let this :=
    Sample.plugin (Sample.invoke "hello") None [("hello", Sample.fn None)]
      Sample.noRemote in
  exists w1 w2,
    beforeLocalInvoke Properties.readSync this Sample.captured = (w1, Ok ())
    ∧ beforeLocalInvoke Properties.readSync this w1 = (w2, Ok ())
    ∧ process_env w2 = process_env w1.
Proof.
  intros this.
  destruct (beforeLocalInvoke Properties.readSync this Sample.captured)
    as [w1 r] eqn:Hrun.
  assert (Hr : r = Ok ())
    by (apply (f_equal snd) in Hrun; vm_compute in Hrun; by subst r).
  subst r.
  destruct (inject_twice Properties.readSync this _ _ Hrun)
    as (w2 & Hrun2 & Henv & _).
  by exists w1, w2.
Defined.

(** ** Capturing: what is asked, what is returned, which file holds what *)

Lemma elem_of_keys_get {V} (o : Obj V) (k : string) :
  k ∈ keys o -> exists v, get o k = Some v.
Proof.
  induction o as [|[k' v'] o IH]; intros Hk; [by apply elem_of_nil in Hk|].
  simpl in *. destruct (String.eqb k' k) eqn:Heq; [eauto|].
  apply elem_of_cons in Hk as [->|Hk]; [|by apply IH].
  by rewrite String.eqb_refl in Heq.
Qed.

Lemma captureAll_with_lambda (this : Plugin)
    (remote : string -> Promise FunctionDetails) (stackName : string)
    (names : list string) (w : World) :
  (forall f, f ∈ names ->
     remote (stackName +:+ "-" +:+ f) =
     lambda_getFunctionConfiguration this (stackName +:+ "-" +:+ f)) ->
  captureAll (with_lambda this remote) stackName names w =
  captureAll this stackName names w.
Proof.
  revert w. induction names as [|f rest IH]; intros w Hsame; [done|].
  simpl.
  assert (Hf : captureFunction (with_lambda this remote) stackName f w =
               captureFunction this stackName f w).
  { unfold captureFunction. simpl. rewrite Hsame by apply list_elem_of_here.
    reflexivity. }
  rewrite Hf. destruct (captureFunction this stackName f w) as [w1 p].
  rewrite IH; [done|]. intros g Hg. apply Hsame. by apply list_elem_of_further.
Qed.

(** X8: a capture consults the Lambda client for the names
    [<service>-<stage>-<function>] of the declared functions and for nothing
    else: with a client that answers those names alike, the capture is the
    same. *)
Theorem capture_asks_declared_names_only (this : Plugin)
    (remote : string -> Promise FunctionDetails) (w : World) :
  (forall f, f ∈ keys (functions (service (serverless this))) ->
     remote (service_name (service (serverless this)) +:+ "-"
             +:+ getStage this +:+ "-" +:+ f) =
     lambda_getFunctionConfiguration this
       (service_name (service (serverless this)) +:+ "-"
        +:+ getStage this +:+ "-" +:+ f)) ->
  afterDeploy (with_lambda this remote) w = afterDeploy this w.
Proof.
  intros Hsame. unfold afterDeploy.
  change (getStackName (with_lambda this remote)) with (getStackName this).
  change (serverless (with_lambda this remote)) with (serverless this).
  rewrite captureAll_with_lambda; [done|].
  intros f Hf. specialize (Hsame f Hf). unfold getStackName.
  by rewrite !append_assoc.
Qed.

Lemma capture_asks_declared_names_only_witness :
  afterDeploy
    (with_lambda Sample.three
       (fun name =>
          if String.eqb name "svc-dev-a" || String.eqb name "svc-dev-c"
          then Resolved {| Environment_Variables := Some [("NAME", name)] |}
          else Rejected (AwsError "ResourceNotFoundException")))
    Sample.fresh
  = afterDeploy Sample.three Sample.fresh.
Proof.
  apply capture_asks_declared_names_only.
  intros f Hf. simpl in Hf.
  rewrite !elem_of_cons, elem_of_nil in Hf.
  destruct Hf as [->|[->|[->|[]]]]; reflexivity.
Defined.

Lemma Promise_all_resolved {A} (ps : list (Promise A)) (l : list A) :
  Promise_all ps = Resolved l <-> ps = Resolved <$> l.
Proof.
  revert l. induction ps as [|[a|e] rest IH]; intros l; simpl.
  - split; [by intros [= <-]|]. by destruct l.
  - destruct (Promise_all rest) as [l'|e'] eqn:Hall.
    + split.
      * intros [= <-]. simpl. f_equal. by apply IH.
      * destruct l as [|b l]; [done|]. simpl. intros [= -> Hrest].
        apply IH in Hrest. by injection Hrest as ->.
    + split; [done|]. destruct l as [|b l]; [done|]. simpl.
      intros [= -> Hrest]. by apply IH in Hrest.
  - split; [done|]. by destruct l.
Qed.

(** A pipeline resolves only through a fetch and a write that resolved; the
    write has logged its one line. *)
Lemma captureFunction_resolved_inv (this : Plugin)
    (stackName functionName : string) (w w' : World) (data : string) :
  captureFunction this stackName functionName w = (w', Resolved data) ->
  exists details,
    lambda_getFunctionConfiguration this (stackName +:+ "-" +:+ functionName)
      = Resolved details
    ∧ createCFFile this functionName (remoteEnv details) w
      = (w', Ok (Resolved data)).
Proof.
  unfold captureFunction, remoteEnv. intros Hrun.
  destruct (lambda_getFunctionConfiguration this _) as [details|err]; [|done].
  destruct (createCFFile this functionName _ w) as [wc r] eqn:Hwrite.
  destruct r as [[d|e]|e]; simpl in Hrun; try done.
  injection Hrun as <- <-. by exists details.
Qed.

Lemma createCFFile_resolved_log (this : Plugin) (functionName : string)
    (resources : Obj string) (w w' : World) (data : string) :
  createCFFile this functionName resources w = (w', Ok (Resolved data)) ->
  length (cli_log w') = S (length (cli_log w)).
Proof.
  intros Hrun.
  destruct (getEnvFileName this functionName) as [fileName|e] eqn:Hname;
    [| by rewrite (createCFFile_undeclared _ _ _ _ _ Hname) in Hrun ].
  rewrite (createCFFile_cases _ _ _ _ _ Hname) in Hrun. cbv zeta in Hrun.
  assert (Hwrite : forall v : World,
    logAndWrite (getEnvDirectory this) fileName resources v
      = (w', Ok (Resolved data)) ->
    length (cli_log w') = S (length (cli_log v))).
  { intros v Hv. unfold logAndWrite, Fs.writeFile in Hv. simpl in Hv.
    destruct (files v !! fullName (getEnvDirectory this) fileName)
      as [[c|m0]|];
      destruct (files v !! Fs.dirname (fullName (getEnvDirectory this) fileName))
        as [[c'|m']|];
      injection Hv as <- _; simpl; rewrite length_app; simpl; lia. }
  destruct (files w !! getEnvDirectory this) as [[c0|m0]|]; [done|by apply Hwrite|].
  destruct (files w !! Fs.dirname (getEnvDirectory this)) as [[c1|m1]|];
    [done| |done].
  by apply Hwrite in Hrun.
Qed.

Lemma captureAll_resolved_log (this : Plugin) (stackName : string)
    (names : list string) (w w' : World) (datas : list string) :
  captureAll this stackName names w = (w', Resolved <$> datas) ->
  length (cli_log w') = length (cli_log w) + length names.
Proof.
  revert w datas. induction names as [|f rest IH]; intros w datas Hrun.
  - injection Hrun as <- _. simpl. lia.
  - simpl in Hrun.
    destruct (captureFunction this stackName f w) as [w1 q] eqn:Hf.
    destruct (captureAll this stackName rest w1) as [w2 ps'] eqn:Hrest.
    injection Hrun as <- Hps.
    destruct datas as [|d datas]; [done|]. simpl in Hps.
    injection Hps as -> ->.
    apply captureFunction_resolved_inv in Hf as (details & _ & Hwrite).
    apply createCFFile_resolved_log in Hwrite.
    apply IH in Hrest. simpl. lia.
Qed.

(** X9: when a capture resolves, its value lists in the order of the
    declared functions the text written for each of them; every fetch had
    succeeded, every function has its file, and the log has grown by exactly
    one line per function. *)
Theorem capture_resolved_value (this : Plugin) (w w' : World)
    (datas : list string) :
  afterDeploy this w = (w', Resolved datas) ->
  let names := keys (functions (service (serverless this))) in
  length datas = length names
  ∧ length (cli_log w') = length (cli_log w) + length names
  ∧ (forall i f, names !! i = Some f ->
       exists details fileName content,
         lambda_getFunctionConfiguration this (remoteName this f)
           = Resolved details
         ∧ datas !! i = Some (propertiesData (remoteEnv details))
         ∧ getEnvFileName this f = Ok fileName
         ∧ files w' !! fullName (getEnvDirectory this) fileName
             = Some (File content)).
Proof.
  intros Hrun names. unfold afterDeploy in Hrun. fold names in Hrun.
  destruct (captureAll this (getStackName this) names w) as [w0 ps] eqn:Hall.
  injection Hrun as -> Hps. apply Promise_all_resolved in Hps as ->.
  pose proof (captureAll_length this (getStackName this) names w) as Hlen.
  rewrite Hall in Hlen. simpl in Hlen. rewrite length_fmap in Hlen.
  split; [done|]. split; [by eapply captureAll_resolved_log|].
  intros i f Hi.
  destruct (captureAll_split this _ _ _ _ _ i f Hall Hi)
    as (wi & wi' & p & _ & Hp & Hf & Hdrop).
  rewrite list_lookup_fmap in Hp.
  destruct (datas !! i) as [data|] eqn:Hdata; [|done].
  injection Hp as <-.
  destruct (captureFunction_resolved this _ f wi wi' data Hf)
    as (fileName & Hname & Hfile).
  destruct (captureAll_keeps_files this _ _ _ _ _ _ _ Hdrop Hfile)
    as [content Hcontent].
  apply captureFunction_resolved_inv in Hf as (details & Hfetch & Hwrite).
  apply createCFFile_resolved in Hwrite as (_ & _ & -> & _).
  by exists details, fileName, content.
Qed.

Lemma capture_resolved_value_witness :
  let this :=
    Sample.plugin None None [("a", Sample.fn None); ("c", Sample.fn None)]
      (fun name =>
         Resolved {| Environment_Variables := Some [("NAME", name)] |}) in
  exists w',
    afterDeploy this Sample.fresh =
      (w', Resolved ["NAME=svc-dev-a" +:+ nl; "NAME=svc-dev-c" +:+ nl])
    ∧ length (cli_log w') = 2.
Proof.
  intros this.
  destruct (afterDeploy this Sample.fresh) as [w' r] eqn:Hrun.
  assert (Hr : r = Resolved ["NAME=svc-dev-a" +:+ nl; "NAME=svc-dev-c" +:+ nl])
    by (apply (f_equal snd) in Hrun; vm_compute in Hrun; by subst r).
  subst r. exists w'. split; [reflexivity|].
  by destruct (capture_resolved_value this _ _ _ Hrun) as (_ & -> & _).
Defined.

Lemma fullName_inj (path a b : string) :
  fullName path a = fullName path b -> a = b.
Proof.
  unfold fullName. intros H. apply (inj (String.app path)) in H.
  by apply (inj (String.app "/")) in H.
Qed.

(** The capture of another function leaves a file of the store as it is. *)
Lemma captureFunction_other_file (this : Plugin)
    (stackName functionName fileName : string) (w w' : World)
    (q : Promise string) :
  captureFunction this stackName functionName w = (w', q) ->
  getEnvFileName this functionName ≠ Ok fileName ->
  files w' !! fullName (getEnvDirectory this) fileName =
  files w !! fullName (getEnvDirectory this) fileName.
Proof.
  unfold captureFunction. intros Hrun Hother.
  destruct (lambda_getFunctionConfiguration this _) as [details|err].
  - destruct (createCFFile this functionName _ w) as [wc r] eqn:Hwrite.
    assert (Hframe : files wc !! fullName (getEnvDirectory this) fileName =
                     files w !! fullName (getEnvDirectory this) fileName).
    { eapply createCFFile_frame; [exact Hwrite|apply fullName_neq|].
      intros fileName' Hname Heq. apply fullName_inj in Heq as ->.
      by apply Hother. }
    destruct (settle r); by injection Hrun as <- _.
  - by injection Hrun as <- _.
Qed.

Lemma captureAll_other_file (this : Plugin) (stackName fileName : string)
    (names : list string) (w w' : World) (ps : list (Promise string)) :
  captureAll this stackName names w = (w', ps) ->
  (forall g, g ∈ names -> getEnvFileName this g ≠ Ok fileName) ->
  files w' !! fullName (getEnvDirectory this) fileName =
  files w !! fullName (getEnvDirectory this) fileName.
Proof.
  revert w ps. induction names as [|g rest IH]; intros w ps Hrun Hother.
  - by injection Hrun as <- _.
  - simpl in Hrun.
    destruct (captureFunction this stackName g w) as [w1 q] eqn:Hg.
    destruct (captureAll this stackName rest w1) as [w2 ps'] eqn:Hrest.
    injection Hrun as <- _.
    rewrite (IH w1 ps' Hrest)
      by (intros h Hh; apply Hother; by apply list_elem_of_further).
    eapply captureFunction_other_file; [exact Hg|].
    apply Hother. apply list_elem_of_here.
Qed.

Lemma get_elem_of {V} (o : Obj V) (k : string) (v : V) :
  get o k = Some v -> (k, v) ∈ o.
Proof.
  induction o as [|[k' v'] o IH]; [done|]. simpl.
  destruct (String.eqb k' k) eqn:Heq.
  - apply String.eqb_eq in Heq as ->. intros [= ->]. apply list_elem_of_here.
  - intros H. apply list_elem_of_further. by apply IH.
Qed.

(** Without an override the file name is the default one. *)
Lemma getEnvFileName_default (this : Plugin) (functionName : string)
    (fn : FunctionConfig) :
  get (functions (service (serverless this))) functionName = Some fn ->
  truthy (fileOverride fn) = None ->
  getEnvFileName this functionName =
    Ok (defaultFileName (getRegion this) (getStage this) functionName).
Proof.
  intros Hfn Hnone. unfold getEnvFileName, fileOverride in *.
  by rewrite Hfn, or_else_falsy.
Qed.

Lemma defaultFileName_function_inj (r s f g : string) :
  defaultFileName r s f = defaultFileName r s g -> f = g.
Proof.
  unfold defaultFileName. intros H.
  do 5 (apply (inj (String.app _)) in H). exact H.
Qed.

(** X11: when no declared function overrides its file name, the functions
    write to different files: after a capture, the file of every function
    whose pipeline resolved holds exactly the data of that function. *)
Theorem capture_default_names_do_not_interfere (this : Plugin) (w : World)
    (i : nat) (f data : string) :
  let names := keys (functions (service (serverless this))) in
  NoDup names ->
  (forall g fn, get (functions (service (serverless this))) g = Some fn ->
     truthy (fileOverride fn) = None) ->
  names !! i = Some f ->
  (captureAll this (getStackName this) names w).2 !! i
    = Some (Resolved data) ->
  files (afterDeploy this w).1
    !! fullName (getEnvDirectory this)
         (defaultFileName (getRegion this) (getStage this) f)
    = Some (File data).
Proof.
  intros names Hnodup Hplain Hi Hp. unfold afterDeploy. fold names.
  destruct (captureAll this (getStackName this) names w) as [w' ps] eqn:Hrun.
  simpl in *.
  assert (Hdefault : forall g, g ∈ names ->
    getEnvFileName this g =
      Ok (defaultFileName (getRegion this) (getStage this) g)).
  { intros g Hg. destruct (elem_of_keys_get _ _ Hg) as [fn Hfn].
    eapply getEnvFileName_default; eauto. }
  destruct (captureAll_split this _ names w w' ps i f Hrun Hi)
    as (wi & wi' & p & _ & Hp' & Hf & Hdrop).
  rewrite Hp in Hp'. injection Hp' as <-.
  destruct (captureFunction_resolved this _ f wi wi' data Hf)
    as (fileName & Hname & Hfile).
  rewrite Hdefault in Hname by (by eapply list_elem_of_lookup_2).
  injection Hname as <-.
  rewrite (captureAll_other_file this _ _ _ _ _ _ Hdrop); [done|].
  intros g Hg Heq.
  assert (Hgin : g ∈ names) by (by eapply subseteq_drop).
  rewrite (Hdefault g Hgin) in Heq. apply Ok_inj in Heq.
  apply defaultFileName_function_inj in Heq as ->.
  rewrite <- (take_drop_middle names i f Hi) in Hnodup.
  apply NoDup_app in Hnodup as (_ & _ & Hnd).
  apply NoDup_cons in Hnd as [Hnotin _]. by apply Hnotin.
Qed.

Lemma capture_default_names_do_not_interfere_witness :
  files (afterDeploy Sample.three Sample.fresh).1
    !! "/proj/.serverless-env-local/.us-east-1_dev_c"
  = Some (File ("NAME=svc-dev-c" +:+ nl)).
Proof.
  apply (capture_default_names_do_not_interfere Sample.three Sample.fresh 2
           "c" ("NAME=svc-dev-c" +:+ nl)).
  - simpl. repeat constructor; rewrite ?elem_of_cons, ?elem_of_nil;
      intuition discriminate.
  - intros g fn Hget. apply get_elem_of in Hget.
    change (functions (service (serverless Sample.three)))
      with [("a", Sample.fn None); ("b", Sample.fn None); ("c", Sample.fn None)]
      in Hget.
    rewrite !elem_of_cons, elem_of_nil in Hget.
    destruct Hget as [[= _ ->]|[[= _ ->]|[[= _ ->]|[]]]]; reflexivity.
  - reflexivity.
  - vm_compute. reflexivity.
Defined.


(** ** When a capture succeeds *)






(** ** The text that is written *)

Lemma countChar_append (c : ascii) (a b : string) :
  countChar c (a +:+ b) = countChar c a + countChar c b.
Proof.
  induction a as [|x a IH]; [done|]. rewrite append_cons. simpl.
  destruct (Ascii.eqb x c); by rewrite IH.
Qed.

Lemma countChar_absent (c : ascii) (s : string) :
  Str.mem c s = false -> countChar c s = 0.
Proof.
  induction s as [|x s IH]; [done|]. simpl.
  destruct (Ascii.eqb x c); [done|]. exact IH.
Qed.

Lemma concatRecords_cons (entry : string * string) (rest : Obj string) :
  concatRecords (entry :: rest) = record entry +:+ concatRecords rest.
Proof. reflexivity. Qed.

(** X13: the text written for a map whose keys hold no newline has exactly
    one newline per entry, whatever the values are: every entry is one line
    of the file, and the empty map gives the empty file. *)
Theorem one_line_per_entry (resources : Obj string) :
  Forall (fun k => Str.mem Str.newline k = false) (keys resources) ->
  countChar Str.newline (propertiesData resources) = length resources
  ∧ (resources = [] -> propertiesData resources = EmptyString).
Proof.
  intros Hkeys. split; [|by intros ->].
  rewrite propertiesData_concat.
  induction resources as [|[k v] rest IH]; [done|].
  apply Forall_cons in Hkeys as [Hk Hrest]. simpl in Hk.
  rewrite concatRecords_cons, countChar_append, (IH Hrest).
  unfold record, nl. rewrite !countChar_append. simpl fst. simpl snd.
  rewrite (countChar_absent _ k Hk).
  rewrite (countChar_absent _ (escapeNewlines v) (escape_no_newline v)).
  reflexivity.
Qed.

Lemma one_line_per_entry_witness :
  countChar Str.newline
    (propertiesData [("FOO", "bar"); ("MULTI", "line1" +:+ nl +:+ "line2")])
  = 2.
Proof.
  apply (one_line_per_entry
           [("FOO", "bar"); ("MULTI", "line1" +:+ nl +:+ "line2")]).
  repeat constructor.
Defined.

(** X14: two maps of the data model whose values hold no backslash followed
    by n are written as different texts unless they are the same map, order
    of the entries included. *)
Theorem written_text_determines_map (env1 env2 : Obj string) :
  EnvironmentMap env1 -> EnvironmentMap env2 ->
  Forall (fun v => hasBackslashN v = false) env1.*2 ->
  Forall (fun v => hasBackslashN v = false) env2.*2 ->
  propertiesData env1 = propertiesData env2 ->
  env1 = env2.
Proof.
  intros Henv1 Henv2 Hv1 Hv2 Heq. rewrite !propertiesData_concat in Heq.
  rewrite <- (parse_concatRecords env1 Henv1 Hv1).
  rewrite <- (parse_concatRecords env2 Henv2 Hv2).
  by rewrite Heq.
Qed.

Lemma written_text_determines_map_witness :
  propertiesData [("A", "1")] ≠ propertiesData [("A", "2")].
Proof.
  intros Heq.
  apply (written_text_determines_map [("A", "1")] [("A", "2")]) in Heq.
  - discriminate Heq.
  - split; [|repeat constructor; discriminate].
    repeat constructor. rewrite elem_of_nil. tauto.
  - split; [|repeat constructor; discriminate].
    repeat constructor. rewrite elem_of_nil. tauto.
  - repeat constructor.
  - repeat constructor.
Defined.

(** ** The file name *)

Lemma truthy_nonempty (a : option string) (s : string) :
  truthy a = Some s -> s ≠ EmptyString.
Proof. destruct a as [[|c r]|]; simpl; [done| |done]. by intros [= <-]. Qed.

(** X15: the file name of a declared function is never empty, so the path
    of its file is never the store directory itself; without an override
    and with a region, a stage and a function name that hold no slash, it is
    a single path component, different from [.] and [..]. *)
Theorem resolved_file_name_is_usable (this : Plugin)
    (functionName fileName : string) :
  getEnvFileName this functionName = Ok fileName ->
  fileName ≠ EmptyString
  ∧ (forall fn,
       get (functions (service (serverless this))) functionName = Some fn ->
       truthy (fileOverride fn) = None ->
       Str.mem Str.slash (getRegion this) = false ->
       Str.mem Str.slash (getStage this) = false ->
       Str.mem Str.slash functionName = false ->
       plainName fileName).
Proof.
  unfold getEnvFileName, fileOverride, or_else. intros Hname.
  destruct (get (functions (service (serverless this))) functionName)
    as [fn|] eqn:Hfn.
  2:{ destruct (inherits functionName); [|done].
      apply Ok_inj in Hname. simpl in Hname. by subst fileName. }
  apply Ok_inj in Hname. split.
  - destruct (truthy (fn_custom fn ≫= _)) as [s|] eqn:Hcustom.
    + subst s. by eapply truthy_nonempty.
    + by subst fileName.
  - intros fn' [= <-] Hnone Hr Hs Hf. rewrite Hnone in Hname. subst fileName.
    assert (Hlen : 3 <= String.length
                     (defaultFileName (getRegion this) (getStage this)
                        functionName)).
    { unfold defaultFileName. rewrite !append_length. simpl. lia. }
    split; [|split].
    + unfold defaultFileName. rewrite !mem_append, Hr, Hs, Hf. reflexivity.
    + intros Heq. rewrite Heq in Hlen. simpl in Hlen. lia.
    + intros Heq. rewrite Heq in Hlen. simpl in Hlen. lia.
Qed.

Lemma resolved_file_name_is_usable_witness :
  let this :=
    Sample.plugin None None [("hello", Sample.fn None)] Sample.noRemote in
  plainName ".us-east-1_dev_hello".
Proof.
  intros this.
  exact (proj2 (resolved_file_name_is_usable this "hello"
                  ".us-east-1_dev_hello" eq_refl)
           (Sample.fn None) eq_refl eq_refl eq_refl eq_refl eq_refl).
Defined.

(** ** Capture isolation *)




(** The three functions of the spec's scenario: the fetch of the second
    fails, the first and the third are written, the capture is rejected with
    the error of the second. *)
Example capture_three_functions :
  let '(w', outcome) := afterDeploy Sample.three Sample.fresh in
  outcome = Rejected (AwsError "ResourceNotFoundException")
  ∧ files w' !! "/proj/.serverless-env-local/.us-east-1_dev_a"
      = Some (File ("NAME=svc-dev-a" +:+ nl))
  ∧ files w' !! "/proj/.serverless-env-local/.us-east-1_dev_b" = None
  ∧ files w' !! "/proj/.serverless-env-local/.us-east-1_dev_c"
      = Some (File ("NAME=svc-dev-c" +:+ nl))
  ∧ writingLine 1 ".us-east-1_dev_a" ∈ cli_log w'
  ∧ lookupError "svc-dev-b" ∈ cli_log w'
  ∧ writingLine 1 ".us-east-1_dev_c" ∈ cli_log w'.
Proof.
  vm_compute. repeat split; repeat constructor.
Qed.

